(** * Task-management backend: entity, use cases, events and stream consumer

    A shallow embedding of the Python sources under [src/app]:
    - [domain/models.py], [domain/exceptions.py], [domain/events.py];
    - [application/services/task_service.py];
    - [infrastructure/database/{session,unit_of_work}.py] and
      [infrastructure/database/repositories/task_repository.py];
    - [infrastructure/messaging/{redis_publisher,redis_consumer}.py].

    Python objects become records, methods become computations in a state
    and exception monad, and the two sources of nondeterminism of the
    interpreter ([datetime.utcnow] and [uuid4]) become oracles that are read
    in call order. *)

From stdpp Require Import gmap strings list sorting.
From Stdlib Require Import NArith ZArith.

Local Open Scope N_scope.

(** ** Python text *)

(** A Python [str] is a sequence of Unicode code points. *)
Definition str : Type := list N.

(** ASCII literals of the source text. *)
Definition lit (s : string) : str :=
  (λ a, Ascii.N_of_ascii a) <$> String.list_ascii_of_string s.

(** [str.isspace] on one code point: the code points CPython classifies as
    whitespace. *)
Definition isspace (c : N) : bool :=
  ((9 <=? c) && (c <=? 13)) || ((28 <=? c) && (c <=? 32))
  || (c =? 133) || (c =? 160) || (c =? 5760)
  || ((8192 <=? c) && (c <=? 8202))
  || (c =? 8232) || (c =? 8233) || (c =? 8239) || (c =? 8287) || (c =? 12288).

Fixpoint lstrip (s : str) : str :=
  match s with
  | c :: s' => if isspace c then lstrip s' else s
  | [] => []
  end.

Definition rstrip (s : str) : str := reverse (lstrip (reverse s)).

(** [s.strip()] with no argument. *)
Definition strip (s : str) : str := rstrip (lstrip s).

(** Truth value of a [str]: the empty string is falsy. *)
Definition truthy (s : str) : bool :=
  match s with [] => false | _ => true end.


(** Fixed-width positional numerals, most significant digit first, as
    produced by [%04d], [%02d], [%06d] and [%032x]. *)
Fixpoint to_digits (base : N) (width : nat) (n : N) : list N :=
  match width with
  | O => []
  | S w => to_digits base w (n / base) ++ [n mod base]
  end.

Definition of_digits (base : N) (ds : list N) : N :=
  foldl (λ acc d, acc * base + d) 0 ds.

Definition dec_char (d : N) : N := 48 + d.
Definition hex_char (d : N) : N := if d <? 10 then 48 + d else 87 + d.

Definition dec_val (c : N) : option N :=
  if (48 <=? c) && (c <=? 57) then Some (c - 48) else None.

Definition hex_val (c : N) : option N :=
  if (48 <=? c) && (c <=? 57) then Some (c - 48)
  else if (97 <=? c) && (c <=? 102) then Some (c - 87)
  else None.

Definition fmt_dec (width : nat) (n : N) : str := dec_char <$> to_digits 10 width n.
Definition fmt_hex (width : nat) (n : N) : str := hex_char <$> to_digits 16 width n.

Definition read_dec (s : str) : option N := of_digits 10 <$> mapM dec_val s.
Definition read_hex (s : str) : option N := of_digits 16 <$> mapM hex_val s.

(** ** Identifiers and timestamps *)

(** A [uuid.UUID] is its 128-bit integer. *)
Definition UUID : Type := N.

(** [str(uuid)]: 32 lower-case hexadecimal digits grouped 8-4-4-4-12. *)
Definition str_UUID (u : UUID) : str :=
  let h := fmt_hex 32 u in
  take 8 h ++ lit "-" ++ take 4 (drop 8 h) ++ lit "-" ++ take 4 (drop 12 h)
  ++ lit "-" ++ take 4 (drop 16 h) ++ lit "-" ++ drop 20 h.

(** A naive [datetime.datetime]. *)
Record datetime : Type := mk_datetime {
  year : N; month : N; day : N;
  hour : N; minute : N; second : N; microsecond : N
}.

Global Instance datetime_eq_dec : EqDecision datetime.
Proof. solve_decision. Defined.

(** [datetime.isoformat()]: the fraction is printed only when it is not zero. *)
Definition isoformat (d : datetime) : str :=
  fmt_dec 4 (year d) ++ lit "-" ++ fmt_dec 2 (month d) ++ lit "-" ++ fmt_dec 2 (day d)
  ++ lit "T" ++ fmt_dec 2 (hour d) ++ lit ":" ++ fmt_dec 2 (minute d)
  ++ lit ":" ++ fmt_dec 2 (second d)
  ++ (if microsecond d =? 0 then [] else lit "." ++ fmt_dec 6 (microsecond d)).

(** Chronological order, used by [ORDER BY created_at DESC]. *)
Definition datetime_key (d : datetime) : list N :=
  [year d; month d; day d; hour d; minute d; second d; microsecond d].

Fixpoint lex_leb (a b : list N) : bool :=
  match a, b with
  | [], _ => true
  | _ :: _, [] => false
  | x :: a', y :: b' => (x <? y) || ((x =? y) && lex_leb a' b')
  end.

Definition datetime_leb (a b : datetime) : bool :=
  lex_leb (datetime_key a) (datetime_key b).

(** ** Values carried by dictionaries *)

(** The Python values that occur in event payloads, error details and the
    statistics result. *)
#[warnings="-register-all"]
Inductive Value : Type :=
| VNone
| VStr (s : str)
| VInt (z : Z)
| VList (l : list Value)
| VDict (d : gmap str Value).

Abbreviation Dict := (gmap str Value).

Definition opt_str (o : option str) : Value :=
  match o with Some s => VStr s | None => VNone end.

(** ** domain/exceptions.py *)

Inductive DomainClass : Type :=
| CDomainException
| CEntityNotFoundException
| CBusinessRuleViolationException
| CInvalidOperationException
| CConcurrencyException.

(** Exceptions that travel through the modelled code.  [Domain] is
    [DomainException] and its subclasses, with the [message] and [details]
    attributes set by [DomainException.__init__]; [JSONDecodeError] is a
    subclass of [ValueError]; [ClientError] stands for what the Redis and
    database clients raise. *)
Inductive exn : Type :=
| ValueError (msg : str)
| RuntimeError (msg : str)
| TypeError (msg : str)
| JSONDecodeError (msg : str)
| Domain (cls : DomainClass) (message : str) (details : Dict)
| ClientError (msg : str).

Definition EntityNotFoundException (entity_type : str) (entity_id : UUID) : exn :=
  Domain CEntityNotFoundException
    (entity_type ++ lit " with id " ++ str_UUID entity_id ++ lit " not found")
    {[ lit "entity_type" := VStr entity_type;
       lit "entity_id" := VStr (str_UUID entity_id) ]}.

Definition BusinessRuleViolationException (rule message : str) : exn :=
  Domain CBusinessRuleViolationException
    (lit "Business rule violation: " ++ message)
    {[ lit "rule" := VStr rule ]}.

Definition InvalidOperationException (message : str) (details : option Dict) : exn :=
  Domain CInvalidOperationException message (default ∅ details).

Definition ConcurrencyException (entity_type : str) (entity_id : UUID) : exn :=
  Domain CConcurrencyException
    (lit "Concurrency conflict for " ++ entity_type ++ lit " with id " ++ str_UUID entity_id)
    {[ lit "entity_type" := VStr entity_type;
       lit "entity_id" := VStr (str_UUID entity_id) ]}.

(** ** Computations with state and exceptions *)

(** A Python call over a store [S]: it always leaves a store behind, and it
    either raises or returns.  Effects made before a [raise] stay. *)
Definition M (S A : Type) : Type := S → S * (exn + A).

Global Instance M_ret {S} : MRet (M S) := λ A a s, (s, inr a).

Global Instance M_bind {S} : MBind (M S) := λ A B f m s,
  match m s with
  | (s', inl e) => (s', inl e)
  | (s', inr a) => f a s'
  end.

Definition raise {S A} (e : exn) : M S A := λ s, (s, inl e).
Definition gets {S A} (f : S → A) : M S A := λ s, (s, inr (f s)).
Definition modify {S} (f : S → S) : M S unit := λ s, (f s, inr tt).

(** [try: body finally: fin]. *)
Definition try_finally {S A} (body : M S A) (fin : M S unit) : M S A := λ s,
  match body s with
  | (s1, r) =>
      match fin s1 with
      | (s2, inl e) => (s2, inl e)
      | (s2, inr _) => (s2, r)
      end
  end.

(** [try: body except Exception: handler]. *)
Definition try_except {S A} (body : M S A) (handler : exn → M S A) : M S A := λ s,
  match body s with
  | (s1, inl e) => handler e s1
  | (s1, inr a) => (s1, inr a)
  end.

(** [with cm: body] for a context manager whose [__exit__] returns [None]
    (it never swallows the exception). *)
Definition with_ {S A} (enter : M S unit) (exit : option exn → M S unit)
    (body : M S A) : M S A := λ s,
  match enter s with
  | (s0, inl e) => (s0, inl e)
  | (s0, inr _) =>
      match body s0 with
      | (s1, inl e) =>
          match exit (Some e) s1 with
          | (s2, inl e') => (s2, inl e')
          | (s2, inr _) => (s2, inl e)
          end
      | (s1, inr a) =>
          match exit None s1 with
          | (s2, inl e') => (s2, inl e')
          | (s2, inr _) => (s2, inr a)
          end
      end
  end.

(** Run a computation over a component of the store. *)
Definition zoom {S T A} (get : S → T) (put : T → S → S) (m : M T A) : M S A := λ s,
  match m (get s) with (t', r) => (put t' s, r) end.

Definition returned {S A} (r : S * (exn + A)) : Prop :=
  match r.2 with inr _ => True | inl _ => False end.

(** ** The interpreter's nondeterminism *)

(** [datetime.utcnow()] and [uuid4()] answer from oracles, consumed in call
    order. *)
Record Runtime : Type := mk_Runtime {
  utcnow_at : nat → datetime;
  utcnow_calls : nat;
  uuid4_at : nat → UUID;
  uuid4_calls : nat
}.

Definition utcnow : M Runtime datetime := λ r,
  (mk_Runtime (utcnow_at r) (S (utcnow_calls r)) (uuid4_at r) (uuid4_calls r),
   inr (utcnow_at r (utcnow_calls r))).

Definition uuid4 : M Runtime UUID := λ r,
  (mk_Runtime (utcnow_at r) (utcnow_calls r) (uuid4_at r) (S (uuid4_calls r)),
   inr (uuid4_at r (uuid4_calls r))).

(** ** domain/models.py *)

Inductive TaskStatus : Type := PENDING | IN_PROGRESS | COMPLETED | CANCELLED.
Inductive TaskPriority : Type := LOW | MEDIUM | HIGH | CRITICAL.

Global Instance TaskStatus_eq_dec : EqDecision TaskStatus.
Proof. solve_decision. Defined.
Global Instance TaskPriority_eq_dec : EqDecision TaskPriority.
Proof. solve_decision. Defined.

(** Iteration order of [for status in TaskStatus]. *)
Definition all_TaskStatus : list TaskStatus := [PENDING; IN_PROGRESS; COMPLETED; CANCELLED].

Definition TaskStatus_value (s : TaskStatus) : str :=
  match s with
  | PENDING => lit "pending"
  | IN_PROGRESS => lit "in_progress"
  | COMPLETED => lit "completed"
  | CANCELLED => lit "cancelled"
  end.

Definition TaskPriority_value (p : TaskPriority) : str :=
  match p with
  | LOW => lit "low"
  | MEDIUM => lit "medium"
  | HIGH => lit "high"
  | CRITICAL => lit "critical"
  end.

(** [str(status)], which is what an f-string prints for an [Enum] member. *)
Definition str_TaskStatus (s : TaskStatus) : str :=
  match s with
  | PENDING => lit "TaskStatus.PENDING"
  | IN_PROGRESS => lit "TaskStatus.IN_PROGRESS"
  | COMPLETED => lit "TaskStatus.COMPLETED"
  | CANCELLED => lit "TaskStatus.CANCELLED"
  end.

Module Task.

Record t : Type := mk {
  id : UUID;
  title : str;
  description : str;
  status : TaskStatus;
  priority : TaskPriority;
  created_at : datetime;
  updated_at : datetime;
  completed_at : option datetime;
  assigned_to : option str
}.

Definition set_title (v : str) (x : t) : t :=
  mk (id x) v (description x) (status x) (priority x) (created_at x)
     (updated_at x) (completed_at x) (assigned_to x).
Definition set_description (v : str) (x : t) : t :=
  mk (id x) (title x) v (status x) (priority x) (created_at x)
     (updated_at x) (completed_at x) (assigned_to x).
Definition set_status (v : TaskStatus) (x : t) : t :=
  mk (id x) (title x) (description x) v (priority x) (created_at x)
     (updated_at x) (completed_at x) (assigned_to x).
Definition set_updated_at (v : datetime) (x : t) : t :=
  mk (id x) (title x) (description x) (status x) (priority x) (created_at x)
     v (completed_at x) (assigned_to x).
Definition set_completed_at (v : option datetime) (x : t) : t :=
  mk (id x) (title x) (description x) (status x) (priority x) (created_at x)
     (updated_at x) v (assigned_to x).
Definition set_assigned_to (v : option str) (x : t) : t :=
  mk (id x) (title x) (description x) (status x) (priority x) (created_at x)
     (updated_at x) (completed_at x) v.

(** A method runs over the object it is called on and the runtime. *)
Abbreviation Method A := (M (t * Runtime) A).

Definition self : Method t := gets fst.
Definition assign (f : t → t) : Method unit := modify (λ s, (f s.1, s.2)).
Definition now : Method datetime := zoom snd (λ r s, (s.1, r)) utcnow.

(** [Task.create(title, description, priority, assigned_to)]. *)
Definition create (title description : str) (priority : TaskPriority)
    (assigned_to : option str) : M Runtime t :=
  now ← utcnow;
  i ← uuid4;
  mret (mk i title description PENDING priority now now None assigned_to).

Definition start : Method unit :=
  x ← self;
  if decide (status x ≠ PENDING) then
    raise (ValueError (lit "Cannot start task in " ++ str_TaskStatus (status x)
                       ++ lit " status"))
  else
    assign (set_status IN_PROGRESS);;
    n ← now;
    assign (set_updated_at n).

Definition complete : Method unit :=
  x ← self;
  if decide (status x = COMPLETED) then
    raise (ValueError (lit "Task is already completed"))
  else if decide (status x = CANCELLED) then
    raise (ValueError (lit "Cannot complete a cancelled task"))
  else
    assign (set_status COMPLETED);;
    n ← now;
    assign (set_completed_at (Some n));;
    x' ← self;
    assign (set_updated_at (default n (completed_at x'))).

Definition cancel : Method unit :=
  x ← self;
  if decide (status x = COMPLETED) then
    raise (ValueError (lit "Cannot cancel a completed task"))
  else
    assign (set_status CANCELLED);;
    n ← now;
    assign (set_updated_at n).

Definition update_details (title description : option str) : Method unit :=
  match title with
  | Some v => if truthy v then assign (set_title v) else mret tt
  | None => mret tt
  end;;
  match description with
  | Some v => if truthy v then assign (set_description v) else mret tt
  | None => mret tt
  end;;
  n ← now;
  assign (set_updated_at n).

Definition assign_to (assignee : str) : Method unit :=
  assign (set_assigned_to (Some assignee));;
  n ← now;
  assign (set_updated_at n).

(** [datetime] comparison [a > b]. *)
Definition later_than (a b : datetime) : bool := negb (datetime_leb a b).

(** [self.status not in [COMPLETED, CANCELLED] and datetime.utcnow() > deadline]:
    [and] reads the clock only when its left operand is true. *)
Definition is_overdue (deadline : datetime) : Method bool :=
  x ← self;
  if bool_decide (status x ∉ [COMPLETED; CANCELLED])
  then n ← now; mret (later_than n deadline)
  else mret false.

End Task.

(** The value the next [datetime.utcnow()] returns, and the runtime after
    that call. *)
Definition reading (r : Runtime) : datetime := utcnow_at r (utcnow_calls r).
Definition after_utcnow (r : Runtime) : Runtime := (utcnow r).1.

(** ** presentation/api/tasks.py: error mapping of the transition routes *)

(** The [except] chain shared by the [start], [complete] and [cancel]
    routes: HTTP status and the ["error"] tag of the response body. *)
Definition transition_error_response (e : exn) : N * str :=
  match e with
  | Domain CEntityNotFoundException _ _ => (404, lit "EntityNotFoundException")
  | ValueError _ | JSONDecodeError _ => (422, lit "InvalidOperation")
  | _ => (500, lit "InternalServerError")
  end.

(** ** domain/events.py *)

Module DomainEvent.

(** The five dataclasses deriving from [DomainEvent]; every one starts
    with the inherited [event_id] and [occurred_at]. *)
Inductive t : Type :=
| TaskCreatedEvent (event_id : UUID) (occurred_at : datetime)
    (task_id : UUID) (title : str) (assigned_to : option str) (priority : str)
| TaskStartedEvent (event_id : UUID) (occurred_at : datetime)
    (task_id : UUID) (started_by : option str)
| TaskCompletedEvent (event_id : UUID) (occurred_at : datetime)
    (task_id : UUID) (completed_by : option str)
| TaskCancelledEvent (event_id : UUID) (occurred_at : datetime)
    (task_id : UUID) (cancelled_by : option str) (reason : option str)
| TaskAssignedEvent (event_id : UUID) (occurred_at : datetime)
    (task_id : UUID) (assigned_to : str) (assigned_by : option str).

(** [self.__class__.__name__]. *)
Definition class_name (e : t) : str :=
  match e with
  | TaskCreatedEvent _ _ _ _ _ _ => lit "TaskCreatedEvent"
  | TaskStartedEvent _ _ _ _ => lit "TaskStartedEvent"
  | TaskCompletedEvent _ _ _ _ => lit "TaskCompletedEvent"
  | TaskCancelledEvent _ _ _ _ _ => lit "TaskCancelledEvent"
  | TaskAssignedEvent _ _ _ _ _ => lit "TaskAssignedEvent"
  end.

Definition event_id (e : t) : UUID :=
  match e with
  | TaskCreatedEvent i _ _ _ _ _ | TaskStartedEvent i _ _ _
  | TaskCompletedEvent i _ _ _ | TaskCancelledEvent i _ _ _ _
  | TaskAssignedEvent i _ _ _ _ => i
  end.

Definition occurred_at (e : t) : datetime :=
  match e with
  | TaskCreatedEvent _ d _ _ _ _ | TaskStartedEvent _ d _ _
  | TaskCompletedEvent _ d _ _ | TaskCancelledEvent _ d _ _ _
  | TaskAssignedEvent _ d _ _ _ => d
  end.

Definition _get_event_data (e : t) : Dict :=
  match e with
  | TaskCreatedEvent _ _ task_id title assigned_to priority =>
      {[ lit "task_id" := VStr (str_UUID task_id);
         lit "title" := VStr title;
         lit "assigned_to" := opt_str assigned_to;
         lit "priority" := VStr priority ]}
  | TaskStartedEvent _ _ task_id started_by =>
      {[ lit "task_id" := VStr (str_UUID task_id);
         lit "started_by" := opt_str started_by ]}
  | TaskCompletedEvent _ _ task_id completed_by =>
      {[ lit "task_id" := VStr (str_UUID task_id);
         lit "completed_by" := opt_str completed_by ]}
  | TaskCancelledEvent _ _ task_id cancelled_by reason =>
      {[ lit "task_id" := VStr (str_UUID task_id);
         lit "cancelled_by" := opt_str cancelled_by;
         lit "reason" := opt_str reason ]}
  | TaskAssignedEvent _ _ task_id assigned_to assigned_by =>
      {[ lit "task_id" := VStr (str_UUID task_id);
         lit "assigned_to" := VStr assigned_to;
         lit "assigned_by" := opt_str assigned_by ]}
  end.

Definition to_dict (e : t) : Dict :=
  {[ lit "event_type" := VStr (class_name e);
     lit "event_id" := VStr (str_UUID (event_id e));
     lit "occurred_at" := VStr (isoformat (occurred_at e));
     lit "data" := VDict (_get_event_data e) ]}.

End DomainEvent.

(** ** infrastructure/database/models.py *)

Module TaskModel.

(** A row of table [tasks]; [id] is the primary key. *)
Record t : Type := mk {
  id : UUID;
  title : str;
  description : str;
  status : TaskStatus;
  priority : TaskPriority;
  assigned_to : option str;
  created_at : datetime;
  updated_at : datetime;
  completed_at : option datetime
}.

End TaskModel.

(** ** The processes' state *)

(** An ORM session: the rows it will write ([Some]) or delete ([None]) when
    it commits.  Nothing reaches the table before that. *)
Record Session : Type := mk_Session {
  pending : gmap UUID (option TaskModel.t)
}.

Definition new_session : Session := mk_Session ∅.

(** Calls received by the three ports of the service, in order. *)
Inductive Call : Type :=
| call_get_by_id (task_id : UUID)
| call_save (task : Task.t)
| call_get_all (status : option TaskStatus) (assigned_to : option str)
    (priority : option TaskPriority) (limit offset : nat)
| call_count (status : option TaskStatus) (assigned_to : option str)
| call_publish (event_type : str) (event_data : Dict)
| call_uow_enter
| call_uow_exit (exc : option exn)
| call_uow_commit
| call_uow_rollback.

(** One entry of the Redis stream: the [event_type] field and the value
    whose [json.dumps] text is the [data] field. *)
Record StreamEntry : Type := mk_StreamEntry {
  entry_event_type : str;
  entry_data : Dict
}.

Record World : Type := mk_World {
  rt : Runtime;
  (** committed rows of table [tasks], by primary key *)
  tasks : gmap UUID TaskModel.t;
  (** [DatabaseSession._session_factory is not None] *)
  session_factory : bool;
  (** [SQLAlchemyUnitOfWork._session] *)
  uow_session : option Session;
  (** [RedisEventPublisher._client is not None] *)
  redis_client : bool;
  (** whether the n-th [XADD] sent to the broker fails *)
  xadd_raises_at : nat → bool;
  xadd_calls : nat;
  (** entries of the stream, oldest first *)
  stream : list StreamEntry;
  (** port calls so far, oldest first *)
  calls : list Call
}.

Definition set_rt (v : Runtime) (w : World) : World :=
  mk_World v (tasks w) (session_factory w) (uow_session w) (redis_client w)
    (xadd_raises_at w) (xadd_calls w) (stream w) (calls w).
Definition set_tasks (v : gmap UUID TaskModel.t) (w : World) : World :=
  mk_World (rt w) v (session_factory w) (uow_session w) (redis_client w)
    (xadd_raises_at w) (xadd_calls w) (stream w) (calls w).
Definition set_uow_session (v : option Session) (w : World) : World :=
  mk_World (rt w) (tasks w) (session_factory w) v (redis_client w)
    (xadd_raises_at w) (xadd_calls w) (stream w) (calls w).
Definition set_xadd_calls (v : nat) (w : World) : World :=
  mk_World (rt w) (tasks w) (session_factory w) (uow_session w) (redis_client w)
    (xadd_raises_at w) v (stream w) (calls w).
Definition set_stream (v : list StreamEntry) (w : World) : World :=
  mk_World (rt w) (tasks w) (session_factory w) (uow_session w) (redis_client w)
    (xadd_raises_at w) (xadd_calls w) v (calls w).
Definition set_calls (v : list Call) (w : World) : World :=
  mk_World (rt w) (tasks w) (session_factory w) (uow_session w) (redis_client w)
    (xadd_raises_at w) (xadd_calls w) (stream w) v.

Definition record (c : Call) : M World unit :=
  modify (λ w, set_calls (calls w ++ [c]) w).

(** Run a runtime call ([utcnow], [uuid4], [Task.create]) in the world. *)
Definition in_rt {A} (m : M Runtime A) : M World A := zoom rt set_rt m.

(** [task.method()] on a local task object: the object after the call. *)
Definition call_on (x : Task.t) (m : Task.Method unit) : M World Task.t := λ w,
  match m (x, rt w) with
  | ((_, r), inl e) => (set_rt r w, inl e)
  | ((x', r), inr _) => (set_rt r w, inr x')
  end.

(** ** infrastructure/database/session.py *)

(** What a session sees for a primary key: its own pending write first. *)
Definition session_lookup (s : Session) (table : gmap UUID TaskModel.t)
    (i : UUID) : option TaskModel.t :=
  match pending s !! i with
  | Some o => o
  | None => table !! i
  end.

(** [session.commit()]: pending writes reach the table. *)
Definition apply_pending (p : gmap UUID (option TaskModel.t))
    (table : gmap UUID TaskModel.t) : gmap UUID TaskModel.t :=
  map_fold (λ i o acc, match o with Some row => <[i := row]> acc
                                   | None => delete i acc end) table p.

(** Operations on the session a repository method holds. *)
Definition session_first (i : UUID) : M (Session * World) (option TaskModel.t) :=
  gets (λ sw, session_lookup sw.1 (tasks sw.2) i).
Definition session_put (row : TaskModel.t) : M (Session * World) unit :=
  modify (λ sw, (mk_Session (<[TaskModel.id row := Some row]> (pending sw.1)), sw.2)).
Definition session_commit : M (Session * World) unit :=
  modify (λ sw, (new_session, set_tasks (apply_pending (pending sw.1) (tasks sw.2)) sw.2)).
Definition session_refresh (row : TaskModel.t) : M (Session * World) TaskModel.t := λ sw,
  match session_lookup sw.1 (tasks sw.2) (TaskModel.id row) with
  | Some row' => (sw, inr row')
  | None => (sw, inl (ClientError (lit "Could not refresh instance")))
  end.
Definition session_rows : M (Session * World) (list TaskModel.t) :=
  gets (λ sw, (map_to_list (apply_pending (pending sw.1) (tasks sw.2))).*2).

(** [session.delete(model)]. *)
Definition session_delete (row : TaskModel.t) : M (Session * World) unit :=
  modify (λ sw, (mk_Session (<[TaskModel.id row := None]> (pending sw.1)), sw.2)).

(** [with self.db_session.get_session() as session: body].  The session is
    new and local; rolling it back on an exception and closing it drop its
    pending writes and touch nothing else. *)
Definition get_session {A} (body : M (Session * World) A) : M World A := λ w,
  if session_factory w then
    match body (new_session, w) with
    | ((_, w'), r) => (w', r)
    end
  else (w, inl (RuntimeError (lit "Session factory not initialized"))).

(** ** infrastructure/database/repositories/task_repository.py *)

Module SQLAlchemyTaskRepository.

Definition _to_domain (model : TaskModel.t) : Task.t :=
  Task.mk (TaskModel.id model) (TaskModel.title model) (TaskModel.description model)
    (TaskModel.status model) (TaskModel.priority model)
    (TaskModel.created_at model) (TaskModel.updated_at model)
    (TaskModel.completed_at model) (TaskModel.assigned_to model).

Definition _to_model (entity : Task.t) : TaskModel.t :=
  TaskModel.mk (Task.id entity) (Task.title entity) (Task.description entity)
    (Task.status entity) (Task.priority entity) (Task.assigned_to entity)
    (Task.created_at entity) (Task.updated_at entity) (Task.completed_at entity).

Definition get_by_id (task_id : UUID) : M World (option Task.t) :=
  record (call_get_by_id task_id);;
  get_session (model ← session_first task_id; mret (_to_domain <$> model)).

(** The assignments of the update branch of [save]: every column but the
    key and [created_at]. *)
Definition overwrite (existing : TaskModel.t) (task : Task.t) : TaskModel.t :=
  TaskModel.mk (TaskModel.id existing) (Task.title task) (Task.description task)
    (Task.status task) (Task.priority task) (Task.assigned_to task)
    (TaskModel.created_at existing) (Task.updated_at task) (Task.completed_at task).

Definition save (task : Task.t) : M World Task.t :=
  record (call_save task);;
  get_session (
    existing ← session_first (Task.id task);
    match existing with
    | Some existing =>
        session_put (overwrite existing task);;
        session_commit;;
        existing ← session_refresh (overwrite existing task);
        mret (_to_domain existing)
    | None =>
        session_put (_to_model task);;
        session_commit;;
        model ← session_refresh (_to_model task);
        mret (_to_domain model)
    end).

Definition matches (status : option TaskStatus) (assigned_to : option str)
    (priority : option TaskPriority) (row : TaskModel.t) : bool :=
  match status with Some s => bool_decide (TaskModel.status row = s) | None => true end
  && match assigned_to with
     | Some a => bool_decide (TaskModel.assigned_to row = Some a) | None => true end
  && match priority with
     | Some p => bool_decide (TaskModel.priority row = p) | None => true end.

(** [ORDER BY created_at DESC]. *)
Definition newest_first (a b : TaskModel.t) : Prop :=
  datetime_leb (TaskModel.created_at b) (TaskModel.created_at a).

Global Instance newest_first_dec a b : Decision (newest_first a b).
Proof. unfold newest_first. apply _. Defined.

Definition get_all (status : option TaskStatus) (assigned_to : option str)
    (priority : option TaskPriority) (limit offset : nat) : M World (list Task.t) :=
  record (call_get_all status assigned_to priority limit offset);;
  get_session (
    rows ← session_rows;
    let query := filter (λ row, matches status assigned_to priority row) rows in
    let query := merge_sort newest_first query in
    let models := take limit (drop offset query) in
    mret (_to_domain <$> models)).

Definition count (status : option TaskStatus) (assigned_to : option str) : M World nat :=
  record (call_count status assigned_to);;
  get_session (
    rows ← session_rows;
    mret (length (filter (λ row, matches status assigned_to None row) rows))).

(** [delete] and [exists] are not among the recorded port calls. *)
Definition delete (task_id : UUID) : M World bool :=
  get_session (
    model ← session_first task_id;
    match model with
    | Some model => session_delete model;; session_commit;; mret true
    | None => mret false
    end).

(** [exists(task_id)]. *)
Definition exists_ (task_id : UUID) : M World bool :=
  get_session (
    model ← session_first task_id;
    mret (bool_decide (is_Some model))).

End SQLAlchemyTaskRepository.

(** ** infrastructure/database/unit_of_work.py *)

Module SQLAlchemyUnitOfWork.

Definition __enter__ : M World unit :=
  record call_uow_enter;;
  s ← gets uow_session;
  match s with
  | Some _ => raise (RuntimeError (lit "Unit of work already active"))
  | None =>
      f ← gets session_factory;
      if f : bool then modify (set_uow_session (Some new_session))
      else raise (TypeError (lit "'NoneType' object is not callable"))
  end.

(** [self._session.commit()] and [self._session.rollback()]. *)
Definition _session_commit (s : Session) : M World unit :=
  modify (λ w, set_uow_session (Some new_session)
                 (set_tasks (apply_pending (pending s) (tasks w)) w)).
Definition _session_rollback : M World unit :=
  modify (set_uow_session (Some new_session)).

Definition commit : M World unit :=
  record call_uow_commit;;
  s ← gets uow_session;
  match s with
  | None => raise (RuntimeError (lit "No active transaction"))
  | Some s =>
      try_except (_session_commit s) (λ e, _session_rollback;; raise e)
  end.

Definition rollback : M World unit :=
  record call_uow_rollback;;
  s ← gets uow_session;
  match s with
  | None => raise (RuntimeError (lit "No active transaction"))
  | Some _ => _session_rollback
  end.

Definition __exit__ (exc : option exn) : M World unit :=
  record (call_uow_exit exc);;
  s ← gets uow_session;
  match s with
  | None => mret tt
  | Some _ =>
      try_finally
        (match exc with None => commit | Some _ => rollback end)
        (modify (set_uow_session None))
  end.

End SQLAlchemyUnitOfWork.

(** ** infrastructure/messaging/redis_publisher.py *)

Module RedisEventPublisher.

(** [self._client.xadd(self.stream_key, message)]. *)
Definition xadd (message : StreamEntry) : M World unit := λ w,
  let w' := set_xadd_calls (S (xadd_calls w)) w in
  if xadd_raises_at w (xadd_calls w)
  then (w', inl (ClientError (lit "redis.exceptions.ConnectionError")))
  else (set_stream (stream w ++ [message]) w', inr tt).

Definition publish (event_type : str) (event_data : Dict) : M World unit :=
  record (call_publish event_type event_data);;
  c ← gets redis_client;
  if c : bool then
    try_except (xadd (mk_StreamEntry event_type event_data)) (λ e, raise e)
  else raise (RuntimeError (lit "Redis client not initialized")).

End RedisEventPublisher.

(** ** application/services/task_service.py *)

Module TaskService.

Import DomainEvent.

(** [with self.unit_of_work: body]. *)
Definition with_unit_of_work {A} (body : M World A) : M World A :=
  with_ SQLAlchemyUnitOfWork.__enter__ SQLAlchemyUnitOfWork.__exit__ body.

Definition create_task (title description : str) (priority : TaskPriority)
    (assigned_to user_id : option str) : M World Task.t :=
  if negb (truthy title) || negb (truthy (strip title)) then
    raise (BusinessRuleViolationException
             (lit "task_title_required") (lit "Task title cannot be empty"))
  else if negb (truthy description) || negb (truthy (strip description)) then
    raise (BusinessRuleViolationException
             (lit "task_description_required") (lit "Task description cannot be empty"))
  else
    with_unit_of_work (
      task ← in_rt (Task.create (strip title) (strip description) priority assigned_to);
      saved_task ← SQLAlchemyTaskRepository.save task;
      event_id ← in_rt uuid4;
      occurred_at ← in_rt utcnow;
      let event :=
        TaskCreatedEvent event_id occurred_at (Task.id saved_task)
          (Task.title saved_task) (Task.assigned_to saved_task)
          (TaskPriority_value (Task.priority saved_task)) in
      RedisEventPublisher.publish (lit "task.created") (to_dict event);;
      SQLAlchemyUnitOfWork.commit;;
      mret saved_task).

Definition get_task (task_id : UUID) : M World Task.t :=
  task ← SQLAlchemyTaskRepository.get_by_id task_id;
  match task with
  | None => raise (EntityNotFoundException (lit "Task") task_id)
  | Some task => mret task
  end.

Definition start_task (task_id : UUID) (user_id : option str) : M World Task.t :=
  with_unit_of_work (
    task ← get_task task_id;
    task ← call_on task Task.start;
    saved_task ← SQLAlchemyTaskRepository.save task;
    event_id ← in_rt uuid4;
    occurred_at ← in_rt utcnow;
    let event := TaskStartedEvent event_id occurred_at task_id user_id in
    RedisEventPublisher.publish (lit "task.started") (to_dict event);;
    SQLAlchemyUnitOfWork.commit;;
    mret saved_task).

Definition complete_task (task_id : UUID) (user_id : option str) : M World Task.t :=
  with_unit_of_work (
    task ← get_task task_id;
    task ← call_on task Task.complete;
    saved_task ← SQLAlchemyTaskRepository.save task;
    event_id ← in_rt uuid4;
    occurred_at ← in_rt utcnow;
    let event := TaskCompletedEvent event_id occurred_at task_id user_id in
    RedisEventPublisher.publish (lit "task.completed") (to_dict event);;
    SQLAlchemyUnitOfWork.commit;;
    mret saved_task).

Definition cancel_task (task_id : UUID) (reason user_id : option str) : M World Task.t :=
  with_unit_of_work (
    task ← get_task task_id;
    task ← call_on task Task.cancel;
    saved_task ← SQLAlchemyTaskRepository.save task;
    event_id ← in_rt uuid4;
    occurred_at ← in_rt utcnow;
    let event := TaskCancelledEvent event_id occurred_at task_id user_id reason in
    RedisEventPublisher.publish (lit "task.cancelled") (to_dict event);;
    SQLAlchemyUnitOfWork.commit;;
    mret saved_task).

Definition assign_task (task_id : UUID) (assignee : str) (user_id : option str)
    : M World Task.t :=
  if negb (truthy assignee) || negb (truthy (strip assignee)) then
    raise (BusinessRuleViolationException
             (lit "assignee_required") (lit "Assignee cannot be empty"))
  else
    with_unit_of_work (
      task ← get_task task_id;
      task ← call_on task (Task.assign_to (strip assignee));
      saved_task ← SQLAlchemyTaskRepository.save task;
      event_id ← in_rt uuid4;
      occurred_at ← in_rt utcnow;
      let event := TaskAssignedEvent event_id occurred_at task_id assignee user_id in
      RedisEventPublisher.publish (lit "task.assigned") (to_dict event);;
      SQLAlchemyUnitOfWork.commit;;
      mret saved_task).

(** The loop [for status in TaskStatus] of [get_task_statistics]. *)
Fixpoint count_by_status (assigned_to : option str) (statuses : list TaskStatus)
    (by_status : gmap str Z) : M World (gmap str Z) :=
  match statuses with
  | [] => mret by_status
  | status :: rest =>
      count ← SQLAlchemyTaskRepository.count (Some status) assigned_to;
      count_by_status assigned_to rest
        (if bool_decide (0 < count)%nat
         then <[TaskStatus_value status := Z.of_nat count]> by_status
         else by_status)
  end.

(** The loop [for task in tasks] of [get_task_statistics]. *)
Definition tally_priorities (tasks : list Task.t) : gmap str Z :=
  foldl (λ priority_counts task,
           <[TaskPriority_value (Task.priority task) :=
               (default 0 (priority_counts !! TaskPriority_value (Task.priority task)) + 1)%Z]>
             priority_counts) ∅ tasks.

Definition get_task_statistics (assigned_to : option str) : M World Dict :=
  total ← SQLAlchemyTaskRepository.count None assigned_to;
  by_status ← count_by_status assigned_to all_TaskStatus ∅;
  tasks ← SQLAlchemyTaskRepository.get_all None assigned_to None 1000 0;
  let priority_counts := tally_priorities tasks in
  mret ({[ lit "total" := VInt (Z.of_nat total);
           lit "by_status" := VDict (VInt <$> by_status);
           lit "by_priority" := VDict (VInt <$> priority_counts) ]} : Dict).

Definition list_tasks (status : option TaskStatus) (assigned_to : option str)
    (priority : option TaskPriority) (limit offset : nat) : M World (list Task.t) :=
  SQLAlchemyTaskRepository.get_all status assigned_to priority limit offset.

(** [x.strip() if x else None]. *)
Definition strip_if_given (x : option str) : option str :=
  match x with
  | Some v => if truthy v then Some (strip v) else None
  | None => None
  end.

(** [x is not None and not x.strip()]. *)
Definition given_but_blank (x : option str) : bool :=
  match x with
  | Some v => negb (truthy (strip v))
  | None => false
  end.

Definition update_task (task_id : UUID) (title description : option str)
    : M World Task.t :=
  with_unit_of_work (
    task ← get_task task_id;
    if given_but_blank title then
      raise (BusinessRuleViolationException
               (lit "task_title_required") (lit "Task title cannot be empty"))
    else if given_but_blank description then
      raise (BusinessRuleViolationException
               (lit "task_description_required") (lit "Task description cannot be empty"))
    else
      task ← call_on task
               (Task.update_details (strip_if_given title) (strip_if_given description));
      saved_task ← SQLAlchemyTaskRepository.save task;
      SQLAlchemyUnitOfWork.commit;;
      mret saved_task).

Definition delete_task (task_id : UUID) : M World bool :=
  with_unit_of_work (
    found ← SQLAlchemyTaskRepository.exists_ task_id;
    if found : bool then
      deleted ← SQLAlchemyTaskRepository.delete task_id;
      SQLAlchemyUnitOfWork.commit;;
      mret deleted
    else raise (EntityNotFoundException (lit "Task") task_id)).

End TaskService.

(** ** Observing a use case *)

(** The port calls made between two worlds of one run. *)
Definition calls_since (w w' : World) : list Call :=
  drop (length (calls w)) (calls w').

(** The [publish] calls among some port calls, with their arguments. *)
Definition publications (cs : list Call) : list (str * Dict) :=
  omap (λ c, match c with
             | call_publish event_type event_data => Some (event_type, event_data)
             | _ => None
             end) cs.

(** The [save] calls among some port calls. *)
Definition saves (cs : list Call) : list Task.t :=
  omap (λ c, match c with call_save task => Some task | _ => None end) cs.

(** A row is stored under its own primary key. *)
Definition stored (w : World) (task_id : UUID) (row : TaskModel.t) : Prop :=
  tasks w !! task_id = Some row ∧ TaskModel.id row = task_id.

(** Text that starts or ends with a whitespace character. *)
Definition outer_whitespace (s : str) : bool :=
  match head s with Some c => isspace c | None => false end
  || match last s with Some c => isspace c | None => false end.

(** ** Sample worlds *)

Module Scenario.

Definition clock (n : nat) : datetime :=
  mk_datetime 2024 5 17 9 30 (N.of_nat n) 0.

Definition ids (n : nat) : UUID := 1000 + N.of_nat n.

Definition runtime : Runtime := mk_Runtime clock 0 ids 0.

(** An initialised service over an empty table, with a reachable broker. *)
Definition healthy : World :=
  mk_World runtime ∅ true None true (λ _, false) 0 [] [].

(** The same service when every [XADD] fails. *)
Definition broker_down : World :=
  mk_World runtime ∅ true None true (λ _, true) 0 [] [].

Definition row (i : UUID) (s : TaskStatus) (p : TaskPriority) (sec : N) : TaskModel.t :=
  TaskModel.mk i (lit "Buy milk") (lit "2% milk, 1 gallon") s p None
    (mk_datetime 2024 5 16 8 0 sec 0) (mk_datetime 2024 5 16 8 0 sec 0)
    (if decide (s = COMPLETED) then Some (mk_datetime 2024 5 16 8 0 sec 0) else None).

(** One pending task, stored under key 7. *)
Definition one_pending (broker_fails : bool) : World :=
  mk_World runtime {[ 7 := row 7 PENDING MEDIUM 0 ]} true None true
    (λ _, broker_fails) 0 [] [].

(** Three pending, one completed and one cancelled task; all of medium
    priority except one of high priority. *)
Definition five_tasks : World :=
  mk_World runtime
    {[ 1 := row 1 PENDING MEDIUM 1; 2 := row 2 PENDING HIGH 2;
       3 := row 3 PENDING MEDIUM 3; 4 := row 4 COMPLETED MEDIUM 4;
       5 := row 5 CANCELLED MEDIUM 5 ]}
    true None true (λ _, false) 0 [] [].

End Scenario.

(** ** Describing the contents of the table *)

Definition table_rows (w : World) : list TaskModel.t := (map_to_list (tasks w)).*2.

Definition with_status (s : TaskStatus) (w : World) : nat :=
  length (filter (λ row, TaskModel.status row = s) (table_rows w)).

Definition with_priority (p : TaskPriority) (w : World) : nat :=
  length (filter (λ row, TaskModel.priority row = p) (table_rows w)).

(** ** Reading an event back from its wire mapping *)

(** [uuid.UUID(s)] on the canonical 8-4-4-4-12 form. *)
Definition read_UUID (s : str) : option UUID :=
  if bool_decide (length s = 36%nat
                  ∧ s !! 8%nat = Some 45 ∧ s !! 13%nat = Some 45
                  ∧ s !! 18%nat = Some 45 ∧ s !! 23%nat = Some 45)
  then read_hex (take 8 s ++ take 4 (drop 9 s) ++ take 4 (drop 14 s)
                 ++ take 4 (drop 19 s) ++ drop 24 s)
  else None.

(** [datetime.fromisoformat(s)] on the two shapes [isoformat] prints. *)
Definition fromisoformat (s : str) : option datetime :=
  if bool_decide (s !! 4%nat = Some 45 ∧ s !! 7%nat = Some 45 ∧ s !! 10%nat = Some 84
                  ∧ s !! 13%nat = Some 58 ∧ s !! 16%nat = Some 58)
  then
    y ← read_dec (take 4 s);
    mo ← read_dec (take 2 (drop 5 s));
    d ← read_dec (take 2 (drop 8 s));
    h ← read_dec (take 2 (drop 11 s));
    mi ← read_dec (take 2 (drop 14 s));
    sec ← read_dec (take 2 (drop 17 s));
    match drop 19 s with
    | [] => Some (mk_datetime y mo d h mi sec 0)
    | c :: frac =>
        if bool_decide (c = 46 ∧ length frac = 6%nat)
        then us ← read_dec frac; Some (mk_datetime y mo d h mi sec us)
        else None
    end
  else None.

(** The values a [uuid.UUID] and a [datetime] can take. *)
Definition valid_UUID (u : UUID) : Prop := u < 2 ^ 128.

Definition valid_datetime (d : datetime) : Prop :=
  1 ≤ year d ≤ 9999 ∧ 1 ≤ month d ≤ 12 ∧ 1 ≤ day d ≤ 31
  ∧ hour d < 24 ∧ minute d < 60 ∧ second d < 60 ∧ microsecond d < 1000000.

Module Wire.

Import DomainEvent.

Definition get_str (d : Dict) (k : str) : option str :=
  match d !! k with Some (VStr s) => Some s | _ => None end.

(** An optional field: [None] travels as [VNone]. *)
Definition get_optional (d : Dict) (k : str) : option (option str) :=
  match d !! k with
  | Some (VStr s) => Some (Some s)
  | Some VNone => Some None
  | _ => None
  end.

Definition get_dict (d : Dict) (k : str) : option Dict :=
  match d !! k with Some (VDict x) => Some x | _ => None end.

(** Reading the type-tagged fields back: the tag selects the variant, the
    identifiers and the timestamp are parsed from their text, and the
    fields of the [data] sub-mapping are taken as they are. *)
Definition read_event (wire : Dict) : option t :=
  tag ← get_str wire (lit "event_type");
  event_id ← get_str wire (lit "event_id") ≫= read_UUID;
  occurred_at ← get_str wire (lit "occurred_at") ≫= fromisoformat;
  data ← get_dict wire (lit "data");
  task_id ← get_str data (lit "task_id") ≫= read_UUID;
  if decide (tag = lit "TaskCreatedEvent") then
    title ← get_str data (lit "title");
    assigned_to ← get_optional data (lit "assigned_to");
    priority ← get_str data (lit "priority");
    Some (TaskCreatedEvent event_id occurred_at task_id title assigned_to priority)
  else if decide (tag = lit "TaskStartedEvent") then
    started_by ← get_optional data (lit "started_by");
    Some (TaskStartedEvent event_id occurred_at task_id started_by)
  else if decide (tag = lit "TaskCompletedEvent") then
    completed_by ← get_optional data (lit "completed_by");
    Some (TaskCompletedEvent event_id occurred_at task_id completed_by)
  else if decide (tag = lit "TaskCancelledEvent") then
    cancelled_by ← get_optional data (lit "cancelled_by");
    reason ← get_optional data (lit "reason");
    Some (TaskCancelledEvent event_id occurred_at task_id cancelled_by reason)
  else if decide (tag = lit "TaskAssignedEvent") then
    assigned_to ← get_str data (lit "assigned_to");
    assigned_by ← get_optional data (lit "assigned_by");
    Some (TaskAssignedEvent event_id occurred_at task_id assigned_to assigned_by)
  else None.

Definition task_id (e : t) : UUID :=
  match e with
  | TaskCreatedEvent _ _ i _ _ _ | TaskStartedEvent _ _ i _
  | TaskCompletedEvent _ _ i _ | TaskCancelledEvent _ _ i _ _
  | TaskAssignedEvent _ _ i _ _ => i
  end.

(** An event made of values Python can build. *)
Definition valid_event (e : t) : Prop :=
  valid_UUID (event_id e) ∧ valid_datetime (occurred_at e) ∧ valid_UUID (task_id e).

End Wire.

(** ** infrastructure/messaging/redis_consumer.py *)

Module RedisStreamConsumer.

(** The fields of one stream entry as the client returns them. *)
Abbreviation Fields := (gmap str str).

(** What the loop leaves behind, in order: [ev_processed] when
    [process_message] was invoked and returned or raised, [ev_xack] when
    [xack] was called for a message, [ev_sleep] for the pause after a failure
    of the loop itself. *)
Inductive Event : Type :=
| ev_processed (message_id : str) (raised : bool)
| ev_xack (message_id : str)
| ev_sleep.

Global Instance Event_eq_dec : EqDecision Event.
Proof. solve_decision. Defined.

Section Loop.

(** [R] is the state of the Redis client, [H] the state of the subclass
    that implements [process_message]. *)
Context {R H : Type}.

Record Collaborators : Type := mk_Collaborators {
  (** [client.xreadgroup(group, name, {stream: ">"}, count=10, block=...)]:
      per stream, the entries delivered *)
  xreadgroup : M R (list (str * list (str * Fields)));
  (** [client.xack(stream, group, message_id)] *)
  xack : str → M R nat;
  (** [json.loads] *)
  json_loads : str → exn + Value;
  (** the abstract method [process_message(message_id, data)] *)
  process_message : str → Dict → M H unit;
  (** whether another thread has called [stop()] by the n-th test of
      the loop condition *)
  stop_requested : nat → bool
}.

Record Consumer : Type := mk_Consumer {
  _client : option R;
  _running : bool;
  subclass : H;
  loop_tests : nat;
  trace : list Event
}.

Variable env : Collaborators.

Definition startswith (prefix s : str) : bool :=
  bool_decide (take (length prefix) s = prefix).

(** One field of [_parse_message]: text that looks like JSON is decoded,
    and kept as text when decoding fails with [JSONDecodeError]. *)
Definition parse_field (value : str) : exn + Value :=
  if startswith (lit "{") value || startswith (lit "[") value then
    match json_loads env value with
    | inl (JSONDecodeError _) => inr (VStr value)
    | r => r
    end
  else inr (VStr value).

Definition _parse_message (data : Fields) : exn + Dict :=
  foldr (λ kv acc,
           match acc with
           | inl e => inl e
           | inr parsed =>
               match parse_field kv.2 with
               | inl e => inl e
               | inr v => inr (<[kv.1 := v]> parsed)
               end
           end) (inr ∅) (reverse (map_to_list data)).

Definition log (e : Event) (c : Consumer) : Consumer :=
  mk_Consumer (_client c) (_running c) (subclass c) (loop_tests c) (trace c ++ [e]).

(** The body of the innermost [for]: parse, process, acknowledge; any
    exception ends the body and is only logged. *)
Definition handle_message (client : R) (message : str * Fields)
    (c : Consumer) : R * Consumer :=
  let '(message_id, data) := message in
  match _parse_message data with
  | inl _ => (client, c)
  | inr parsed_data =>
      match process_message env message_id parsed_data (subclass c) with
      | (h, inl _) =>
          (client,
           log (ev_processed message_id true)
             (mk_Consumer (_client c) (_running c) h (loop_tests c) (trace c)))
      | (h, inr _) =>
          let c1 :=
            log (ev_xack message_id)
              (log (ev_processed message_id false)
                 (mk_Consumer (_client c) (_running c) h (loop_tests c) (trace c))) in
          ((xack env message_id client).1, c1)
      end
  end.

Definition handle_messages (messages : list (str * Fields)) (client : R)
    (c : Consumer) : R * Consumer :=
  foldl (λ rc message, handle_message rc.1 message rc.2) (client, c) messages.

(** One pass through the body of [while self._running].  A failure of
    the read itself is logged and followed by a pause. *)
Definition iteration (c : Consumer) : Consumer :=
  match _client c with
  | None => if _running c then log ev_sleep c else c
  | Some client =>
      match xreadgroup env client with
      | (client, inl _) =>
          let c := mk_Consumer (Some client) (_running c) (subclass c)
                     (loop_tests c) (trace c) in
          if _running c then log ev_sleep c else c
      | (client, inr messages) =>
          let rc :=
            foldl (λ rc stream, handle_messages stream.2 rc.1 rc.2)
              (client, c) messages in
          mk_Consumer (Some rc.1) (_running rc.2) (subclass rc.2)
            (loop_tests rc.2) (trace rc.2)
      end
  end.

(** The loop test: a [stop()] of another thread is seen here. *)
Definition test_running (c : Consumer) : Consumer :=
  mk_Consumer (_client c)
    (_running c && negb (stop_requested env (loop_tests c)))
    (subclass c) (S (loop_tests c)) (trace c).

(** [while self._running: ...], for at most [fuel] passes.  The result
    is [None] while the loop is still running and [Some tt] once it has
    been left. *)
Fixpoint while_running (fuel : nat) (c : Consumer) : Consumer * option unit :=
  match fuel with
  | O => (c, None)
  | S fuel =>
      let c := test_running c in
      if _running c then while_running fuel (iteration c)
      else (c, Some tt)
  end.

Definition run (fuel : nat) (c : Consumer) : Consumer * option (exn + unit) :=
  match _client c with
  | None => (c, Some (inl (RuntimeError (lit "Consumer not initialized"))))
  | Some _ =>
      let r := while_running fuel
                 (mk_Consumer (_client c) true (subclass c) (loop_tests c) (trace c)) in
      (r.1, inr <$> r.2)
  end.

(** The events one run adds to the trace. *)
Definition events_of_run (fuel : nat) (c : Consumer) : list Event :=
  drop (length (trace c)) (trace (run fuel c).1).

(** [stop()] and [close()]. *)
Definition stop (c : Consumer) : Consumer :=
  mk_Consumer (_client c) false (subclass c) (loop_tests c) (trace c).

Definition close (c : Consumer) : Consumer :=
  mk_Consumer None false (subclass c) (loop_tests c) (trace c).

End Loop.

Arguments Collaborators : clear implicits.
Arguments Consumer : clear implicits.

(** Observations on a trace. *)





End RedisStreamConsumer.

Module Redelivery.

Import RedisStreamConsumer.

(** A broker that hands out, read after read, the batches of a script,
    and a handler that raises on its first invocation only. *)
Definition message : str * Fields :=
  (lit "1700000000000-0", {[ lit "event_type" := lit "task.created" ]}).

Definition env : Collaborators (list (list (str * list (str * Fields)))) nat :=
  mk_Collaborators
    (λ script, (tail script, inr (default [] (head script))))
    (λ _ script, (script, inr 1%nat))
    (λ _, inl (JSONDecodeError (lit "Expecting value")))
    (λ _ _ n, (S n, if decide (n = 0%nat)
                    then inl (ClientError (lit "telegram unavailable"))
                    else inr tt))
    (λ n, bool_decide (3 ≤ n)%nat).

(** The same entry is delivered twice. *)
Definition consumer : Consumer (list (list (str * list (str * Fields)))) nat :=
  mk_Consumer
    (Some [[(lit "events", [message])]; [(lit "events", [message])]])
    false 0%nat 0%nat [].

End Redelivery.

(** ** Footprints of computations *)

(** A computation appends between [lo] and [hi] entries to the stream, at
    least [lo] when it returns and never more than [hi], and leaves the
    entries that were there in place. *)
Definition Appends {A} (lo hi : nat) (m : M World A) : Prop :=
  ∀ w, ∃ l, stream (m w).1 = stream w ++ l
            ∧ (length l ≤ hi)%nat
            ∧ (returned (m w) → (lo ≤ length l)%nat).

(** A computation run inside a unit of work leaves it active and without
    pending writes. *)
Definition KeepsUnitOfWork {A} (m : M World A) : Prop :=
  ∀ w, uow_session w = Some new_session → uow_session (m w).1 = Some new_session.

(** ** Driving a task through calls *)

(** A call of one method of [Task]. *)
Inductive TaskCall : Type :=
| do_start
| do_complete
| do_cancel
| do_update_details (title description : option str)
| do_assign_to (assignee : str)
| do_is_overdue (deadline : datetime).

Definition perform (c : TaskCall) : Task.Method unit :=
  match c with
  | do_start => Task.start
  | do_complete => Task.complete
  | do_cancel => Task.cancel
  | do_update_details title description => Task.update_details title description
  | do_assign_to assignee => Task.assign_to assignee
  | do_is_overdue deadline => Task.is_overdue deadline;; mret tt
  end.

(** A client that makes the calls one after the other and carries on after
    an exception. *)
Definition perform_all (cs : list TaskCall) (s : Task.t * Runtime) : Task.t * Runtime :=
  foldl (λ s c, (perform c s).1) s cs.

(** How far a status is along the life cycle. *)
Definition progress (s : TaskStatus) : nat :=
  match s with
  | PENDING => 0
  | IN_PROGRESS => 1
  | COMPLETED | CANCELLED => 2
  end.

(** What the spec calls the completion invariant of a task. *)
Definition completion_recorded (x : Task.t) : Prop :=
  is_Some (Task.completed_at x) ↔ Task.status x = COMPLETED.

(** Every row sits under its own primary key. *)
Definition well_keyed (table : gmap UUID TaskModel.t) : Prop :=
  ∀ i row, table !! i = Some row → TaskModel.id row = i.

(** The order of a listing: no task is older than a task listed before
    it. *)
Definition listed_before (a b : Task.t) : Prop :=
  datetime_leb (Task.created_at b) (Task.created_at a).

(** A task passes the filters of [get_all]. *)
Definition passes (status : option TaskStatus) (assigned_to : option str)
    (priority : option TaskPriority) (t : Task.t) : Prop :=
  (∀ s, status = Some s → Task.status t = s)
  ∧ (∀ a, assigned_to = Some a → Task.assigned_to t = Some a)
  ∧ (∀ p, priority = Some p → Task.priority t = p).

(** [sum(d.get(p.value, 0) for p in TaskPriority)]. *)
Definition tallied (d : gmap str Z) : Z :=
  foldr (λ p acc, (default 0 (d !! TaskPriority_value p) + acc)%Z) 0%Z
    [LOW; MEDIUM; HIGH; CRITICAL].

(** ** presentation/api/schemas.py: field validators *)

(** [TaskCreateRequest.validate_not_empty] and
    [TaskAssignRequest.validate_assignee]: the value handed on, or the
    message of the [ValueError]. *)
Definition validate_not_empty (v : str) : exn + str :=
  if negb (truthy v) || negb (truthy (strip v))
  then inl (ValueError (lit "Field cannot be empty or contain only whitespace"))
  else inr (strip v).

Definition validate_assignee (v : str) : exn + str :=
  if negb (truthy v) || negb (truthy (strip v))
  then inl (ValueError (lit "Assignee cannot be empty"))
  else inr (strip v).

(** [TaskUpdateRequest.validate_not_empty], on an optional field. *)
Definition validate_optional (v : option str) : exn + option str :=
  match v with
  | Some x =>
      if negb (truthy x) || negb (truthy (strip x))
      then inl (ValueError (lit "Field cannot be empty or contain only whitespace"))
      else inr (Some (strip x))
  | None => inr None
  end.

(** ** infrastructure/messaging/redis_consumer.py: ConsumerRegistry *)

Module ConsumerRegistry.

(** [register(name, consumer)] over the [_consumers] dictionary. *)
Definition register {C} (name : str) (consumer : C) : M (gmap str C) unit :=
  cs ← gets (λ m, m);
  if bool_decide (is_Some (cs !! name)) then
    raise (ValueError (lit "Consumer " ++ name ++ lit " already registered"))
  else modify (<[name := consumer]>).

(** Registrations made one after the other, errors not stopping the
    caller. *)
Definition register_all {C} (l : list (str * C)) (m : gmap str C) : gmap str C :=
  foldl (λ m nc, (register nc.1 nc.2 m).1) m l.

End ConsumerRegistry.

(** ** presentation/consumers/task_notification_consumer.py *)

Module TaskNotificationConsumer.

Section Dispatch.

(** [H] is the state behind the consumer, the Telegram client included. *)
Context {H : Type}.

(** [json.loads], and the four methods [_handle_task_created],
    [_handle_task_completed], [_handle_task_assigned] and
    [_handle_task_cancelled], each of which builds a text from the event and
    hands it to [telegram_client.send_message].  They are the only code of
    the class that sends anything. *)
Variable json_loads : str → exn + Value.
Variable _handle_task_created : Value → M H unit.
Variable _handle_task_completed : Value → M H unit.
Variable _handle_task_assigned : Value → M H unit.
Variable _handle_task_cancelled : Value → M H unit.

(** [process_message(message_id, data)].  The [except] clause logs and
    raises again; a value that is not a string is equal to none of the four
    names. *)
Definition process_message (message_id : str) (data : Dict) : M H unit :=
  let event_type := default (VStr (lit "")) (data !! lit "event_type") in
  let event_data := default (VDict ∅) (data !! lit "data") in
  event_data ← match event_data with
               | VStr text =>
                   match json_loads text with
                   | inl e => raise e
                   | inr v => mret v
                   end
               | v => mret v
               end;
  match event_type with
  | VStr name =>
      if decide (name = lit "TaskCreatedEvent") then _handle_task_created event_data
      else if decide (name = lit "TaskCompletedEvent") then _handle_task_completed event_data
      else if decide (name = lit "TaskAssignedEvent") then _handle_task_assigned event_data
      else if decide (name = lit "TaskCancelledEvent") then _handle_task_cancelled event_data
      else mret tt
  | _ => mret tt
  end.

(** The class itself: [RedisStreamConsumer] with this
    [process_message]. *)
Definition consumer_class {R : Type}
    (xreadgroup : M R (list (str * list (str * RedisStreamConsumer.Fields))))
    (xack : str → M R nat) (stop_requested : nat → bool)
    : RedisStreamConsumer.Collaborators R H :=
  RedisStreamConsumer.mk_Collaborators xreadgroup xack json_loads process_message
    stop_requested.

End Dispatch.

End TaskNotificationConsumer.

(** The fields [RedisEventPublisher.publish] hands to [xadd] for an entry:
    [{"event_type": event_type, "data": json.dumps(event_data)}]. *)
Definition message_fields (json_dumps : Dict → str) (e : StreamEntry) : gmap str str :=
  {[ lit "event_type" := entry_event_type e;
     lit "data" := json_dumps (entry_data e) ]}.

(** ** The use cases as requests *)

(** One call of a method of [TaskService]. *)
Inductive UseCase : Type :=
| uc_create_task (title description : str) (priority : TaskPriority)
    (assigned_to user_id : option str)
| uc_get_task (task_id : UUID)
| uc_list_tasks (status : option TaskStatus) (assigned_to : option str)
    (priority : option TaskPriority) (limit offset : nat)
| uc_start_task (task_id : UUID) (user_id : option str)
| uc_complete_task (task_id : UUID) (user_id : option str)
| uc_cancel_task (task_id : UUID) (reason user_id : option str)
| uc_assign_task (task_id : UUID) (assignee : str) (user_id : option str)
| uc_update_task (task_id : UUID) (title description : option str)
| uc_delete_task (task_id : UUID)
| uc_get_task_statistics (assigned_to : option str).

(** The call, its result dropped. *)
Definition invoke (u : UseCase) : M World unit :=
  match u with
  | uc_create_task title description priority assigned_to user_id =>
      TaskService.create_task title description priority assigned_to user_id;; mret tt
  | uc_get_task task_id => TaskService.get_task task_id;; mret tt
  | uc_list_tasks status assigned_to priority limit offset =>
      TaskService.list_tasks status assigned_to priority limit offset;; mret tt
  | uc_start_task task_id user_id => TaskService.start_task task_id user_id;; mret tt
  | uc_complete_task task_id user_id => TaskService.complete_task task_id user_id;; mret tt
  | uc_cancel_task task_id reason user_id =>
      TaskService.cancel_task task_id reason user_id;; mret tt
  | uc_assign_task task_id assignee user_id =>
      TaskService.assign_task task_id assignee user_id;; mret tt
  | uc_update_task task_id title description =>
      TaskService.update_task task_id title description;; mret tt
  | uc_delete_task task_id => TaskService.delete_task task_id;; mret tt
  | uc_get_task_statistics assigned_to =>
      TaskService.get_task_statistics assigned_to;; mret tt
  end.

(** The entries a computation adds to the stream. *)
Definition published (m : M World unit) (w : World) : list StreamEntry :=
  drop (length (stream w)) (stream (m w).1).

(** Every entry a computation appends to the stream satisfies [P], and
    the entries that were there stay in place. *)
Definition PublishesOnly {A} (P : StreamEntry → Prop) (m : M World A) : Prop :=
  ∀ w, ∃ l, stream (m w).1 = stream w ++ l ∧ Forall P l.

(** The event types [TaskService] publishes under. *)
Definition dotted_event_types : list str :=
  [lit "task.created"; lit "task.started"; lit "task.completed";
   lit "task.cancelled"; lit "task.assigned"].

(** A notifier whose handlers write down which of them ran, over a
    broker that delivers nothing, with a [json.loads] that reads every text
    as an empty object. *)
Module Notifier.

Definition env : RedisStreamConsumer.Collaborators unit (list str) :=
  TaskNotificationConsumer.consumer_class
    (λ _, inr (VDict ∅))
    (λ _ ran, (ran ++ [lit "created"], inr tt))
    (λ _ ran, (ran ++ [lit "completed"], inr tt))
    (λ _ ran, (ran ++ [lit "assigned"], inr tt))
    (λ _ ran, (ran ++ [lit "cancelled"], inr tt))
    (λ r, (r, inr []))
    (λ _ r, (r, inr 1%nat))
    (λ _, true).

Definition consumer : RedisStreamConsumer.Consumer unit (list str) :=
  RedisStreamConsumer.mk_Consumer (Some tt) true [] 0%nat [].

End Notifier.

(** ** presentation/api/tasks.py: the status codes of the routes *)




(** ** Proof automation *)

(** Symbolic execution of the ports and of the monad. *)
Ltac unfold_ports :=
  unfold TaskService.with_unit_of_work, TaskService.get_task,
    SQLAlchemyUnitOfWork.__enter__, SQLAlchemyUnitOfWork.__exit__,
    SQLAlchemyUnitOfWork.commit, SQLAlchemyUnitOfWork.rollback,
    SQLAlchemyUnitOfWork._session_commit, SQLAlchemyUnitOfWork._session_rollback,
    SQLAlchemyTaskRepository.get_by_id, SQLAlchemyTaskRepository.save,
    RedisEventPublisher.publish, RedisEventPublisher.xadd,
    Task.create, Task.start, Task.complete, Task.cancel, Task.assign_to,
    Task.self, Task.assign, Task.now, utcnow, uuid4.

Ltac unfold_more :=
  unfold TaskService.update_task, TaskService.delete_task, TaskService.list_tasks,
    SQLAlchemyTaskRepository.delete, SQLAlchemyTaskRepository.exists_,
    SQLAlchemyTaskRepository.get_all, SQLAlchemyTaskRepository.count,
    session_delete, session_rows, Task.update_details, Task.is_overdue.

Ltac run :=
  unfold mbind, M_bind, mret, M_ret, record, modify, gets, raise, get_session,
    session_first, session_put, session_commit, session_refresh, session_lookup,
    try_except, try_finally, with_, zoom, in_rt, call_on, new_session,
    set_rt, set_tasks, set_uow_session, set_xadd_calls, set_stream, set_calls;
  simpl.

Ltac lookup_literal :=
  repeat first
    [ rewrite lookup_insert_eq
    | rewrite lookup_singleton_eq
    | rewrite lookup_insert_ne by done ].


(** * Properties *)

(** ** The Task state machine *)





(** C2. [complete] returns exactly when the task is Pending or InProgress.
    When it returns, the task is Completed and [completed_at] holds the very
    timestamp stored in [updated_at]; a second [complete] on that task raises
    the invalid-operation error and leaves the task and the runtime as they
    were. *)
Theorem complete_iff_open (x : Task.t) (r : Runtime) :
  (returned (Task.complete (x, r))
   ↔ Task.status x = PENDING ∨ Task.status x = IN_PROGRESS)
  ∧ (∀ x' r', Task.complete (x, r) = ((x', r'), inr tt) →
     Task.status x' = COMPLETED
     ∧ Task.completed_at x' = Some (Task.updated_at x')
     ∧ Task.updated_at x' = reading r
     ∧ Task.complete (x', r')
       = ((x', r'), inl (ValueError (lit "Task is already completed")))
     ∧ transition_error_response (ValueError (lit "Task is already completed"))
       = (422, lit "InvalidOperation")).
Proof.
  destruct x as [i ti de st pr ca ua co asg]. split.
  - destruct st; cbn; split; intros H; try done; try (by left); try (by right);
      destruct H; congruence.
  - intros x' r'. destruct st; cbn; intros H; try discriminate H;
      injection H as <- <-; done.
Qed.


(** ** Text helpers *)

Lemma lstrip_length (s : str) : (length (lstrip s) ≤ length s)%nat.
Proof. induction s as [|c s IH]; simpl; [lia|]. destruct (isspace c); simpl; lia. Qed.

Lemma rstrip_length (s : str) : (length (rstrip s) ≤ length s)%nat.
Proof.
  unfold rstrip. rewrite length_reverse.
  etrans; [apply lstrip_length|]. by rewrite length_reverse.
Qed.

Lemma strip_length (s : str) : (length (strip s) ≤ length s)%nat.
Proof. unfold strip. etrans; [apply rstrip_length|apply lstrip_length]. Qed.

Lemma lstrip_blank (s : str) : forallb isspace s = true → lstrip s = [].
Proof.
  induction s as [|c s IH]; simpl; [done|].
  destruct (isspace c); simpl; [done|discriminate].
Qed.

Lemma strip_blank (s : str) : forallb isspace s = true → strip s = [].
Proof. intros H. unfold strip. by rewrite (lstrip_blank _ H). Qed.

Lemma truthy_strip (s : str) : truthy (strip s) = true → truthy s = true.
Proof. by destruct s. Qed.

Lemma lstrip_suffix (s : str) : ∃ pre, s = pre ++ lstrip s.
Proof.
  induction s as [|c s [pre IH]]; simpl; [by exists []|].
  destruct (isspace c); [|by exists []].
  exists (c :: pre). simpl. by f_equal.
Qed.

Lemma rstrip_trailing (s : str) (c : N) :
  isspace c = true → (length (rstrip (s ++ [c])) ≤ length s)%nat.
Proof.
  intros Hc. unfold rstrip. rewrite reverse_snoc. simpl. rewrite Hc.
  rewrite length_reverse. etrans; [apply lstrip_length|]. by rewrite length_reverse.
Qed.

(** Trimming really changes a text that starts or ends with whitespace. *)
Lemma strip_changes (s : str) : outer_whitespace s = true → strip s ≠ s.
Proof.
  unfold outer_whitespace. intros H Heq.
  assert (length (strip s) < length s)%nat as Hlt; [|rewrite Heq in Hlt; lia].
  apply orb_true_iff in H as [H|H].
  - destruct s as [|c s]; [done|]. simpl in H.
    unfold strip. simpl. rewrite H.
    eapply Nat.le_lt_trans; [apply rstrip_length|].
    eapply Nat.le_lt_trans; [apply lstrip_length|]. simpl. lia.
  - destruct (last s) as [c|] eqn:Hl; [|done].
    apply last_Some in Hl as [s' ->].
    destruct (lstrip_suffix (s' ++ [c])) as [pre Hpre].
    unfold strip. destruct (lstrip (s' ++ [c])) as [|d t] eqn:Ht using rev_ind.
    + rewrite length_app. simpl. unfold rstrip. simpl. lia.
    + clear IHt. rewrite app_assoc in Hpre.
      apply app_inj_tail in Hpre as [-> <-].
      eapply Nat.le_lt_trans; [by apply rstrip_trailing|].
      rewrite !length_app. simpl. lia.
Qed.

(** ** Executing the ports *)

Lemma apply_pending_empty (table : gmap UUID TaskModel.t) :
  apply_pending ∅ table = table.
Proof. unfold apply_pending. by rewrite map_fold_empty. Qed.

Lemma apply_pending_put (i : UUID) (row : TaskModel.t) (table : gmap UUID TaskModel.t) :
  apply_pending (<[i := Some row]> ∅) table = <[i := row]> table.
Proof. unfold apply_pending. by rewrite insert_empty, map_fold_singleton. Qed.

Ltac table_simpl :=
  repeat first
    [ rewrite lookup_empty
    | rewrite apply_pending_put
    | rewrite apply_pending_empty
    | rewrite lookup_insert_eq ]; simpl.

Lemma calls_since_app (w w' : World) (cs : list Call) :
  calls w' = calls w ++ cs → calls_since w w' = cs.
Proof. unfold calls_since. intros ->. by rewrite drop_app_length. Qed.

(** ** Creating a task *)



(** ** Assigning a task *)

(** C6. For any task id and any world, [assign_task] with an assignee that
    is empty or made of whitespace only raises the business-rule violation
    "assignee_required" and leaves the world exactly as it was: no port is
    called, so nothing is saved and nothing is published. *)
Theorem assign_task_blank_assignee_rejected
    (w : World) (task_id : UUID) (assignee : str) (user_id : option str) :
  forallb isspace assignee = true →
  TaskService.assign_task task_id assignee user_id w
  = (w, inl (BusinessRuleViolationException
               (lit "assignee_required") (lit "Assignee cannot be empty")))
  ∧ saves (calls_since w (TaskService.assign_task task_id assignee user_id w).1) = []
  ∧ publications (calls_since w (TaskService.assign_task task_id assignee user_id w).1) = [].
Proof.
  intros H. unfold TaskService.assign_task.
  rewrite (strip_blank _ H). rewrite orb_true_r. unfold raise. simpl.
  unfold calls_since. by rewrite drop_all.
Qed.

Lemma assign_task_blank_witness :
  (∀ task_id user_id,
     TaskService.assign_task task_id (lit "") user_id (Scenario.one_pending false)
     = (Scenario.one_pending false,
        inl (BusinessRuleViolationException
               (lit "assignee_required") (lit "Assignee cannot be empty"))))
  ∧ (∀ task_id user_id,
     TaskService.assign_task task_id (lit "  ") user_id (Scenario.one_pending false)
     = (Scenario.one_pending false,
        inl (BusinessRuleViolationException
               (lit "assignee_required") (lit "Assignee cannot be empty")))).
Proof.
  split; intros task_id user_id.
  - apply (assign_task_blank_assignee_rejected _ task_id (lit "") user_id). reflexivity.
  - apply (assign_task_blank_assignee_rejected _ task_id (lit "  ") user_id). reflexivity.
Defined.



(** ** A failing publish *)

(** The unit of work never holds a write: whatever it commits or rolls back,
    the table stays as the repository left it. *)
Lemma rollback_keeps_table (w : World) :
  tasks (SQLAlchemyUnitOfWork.rollback w).1 = tasks w.
Proof.
  destruct w as [r tb sf us rc xr xc st cs]. unfold_ports. run.
  by destruct us.
Qed.

(** [save] commits through a session of its own: the row is in the table
    as soon as [save] returns, before anything is published. *)
Lemma save_is_committed (w : World) (task : Task.t) :
  session_factory w = true →
  tasks w !! Task.id task = None →
  SQLAlchemyTaskRepository.save task w
  = (set_tasks (<[Task.id task := SQLAlchemyTaskRepository._to_model task]> (tasks w))
       (set_calls (calls w ++ [call_save task]) w),
     inr task).
Proof.
  destruct w as [r tb sf us rc xr xc st cs]. simpl. intros -> Hnone.
  unfold_ports. run. table_simpl. rewrite Hnone. table_simpl. by destruct task.
Qed.

(** When [publish] raises inside [create_task], the error reaches the caller
    and the unit of work is rolled back and closed, yet the new row, absent
    before the call, is in the table afterwards. *)
Lemma create_task_publish_failure
    (w : World) (title description : str) (priority : TaskPriority)
    (assigned_to user_id : option str) :
  truthy (strip title) = true →
  truthy (strip description) = true →
  session_factory w = true →
  uow_session w = None →
  redis_client w = true →
  xadd_raises_at w (xadd_calls w) = true →
  tasks w !! uuid4_at (rt w) (uuid4_calls (rt w)) = None →
  ∃ w' row,
    TaskService.create_task title description priority assigned_to user_id w
    = (w', inl (ClientError (lit "redis.exceptions.ConnectionError")))
    ∧ last (calls w') = Some call_uow_rollback
    ∧ uow_session w' = None
    ∧ stream w' = stream w
    ∧ tasks w' !! uuid4_at (rt w) (uuid4_calls (rt w)) = Some row
    ∧ TaskModel.title row = strip title.
Proof.
  destruct w as [[clk nc ids ni] tb sf us rc xr xc st cs]; simpl.
  intros Ht Hd -> -> -> Hx Hfresh.
  unfold TaskService.create_task.
  rewrite (truthy_strip _ Ht), (truthy_strip _ Hd), Ht, Hd. simpl.
  unfold_ports. run. table_simpl. rewrite Hfresh. table_simpl. rewrite Hx.
  simpl. table_simpl.
  eexists _, _. split; [reflexivity|]. simpl.
  split; [by rewrite last_snoc|]. split; [done|]. split; [done|].
  split; [apply lookup_insert_eq|done].
Qed.

(** The same for a transition of a stored task: the row under [task_id] has
    already taken the new status when the error surfaces. *)
Lemma start_task_publish_failure
    (w : World) (task_id : UUID) (row : TaskModel.t) (user_id : option str) :
  stored w task_id row →
  TaskModel.status row = PENDING →
  session_factory w = true →
  uow_session w = None →
  redis_client w = true →
  xadd_raises_at w (xadd_calls w) = true →
  ∃ w' row',
    TaskService.start_task task_id user_id w
    = (w', inl (ClientError (lit "redis.exceptions.ConnectionError")))
    ∧ last (calls w') = Some call_uow_rollback
    ∧ tasks w' !! task_id = Some row'
    ∧ TaskModel.status row' = IN_PROGRESS.
Proof.
  destruct w as [[clk nc ids ni] tb sf us rc xr xc st cs].
  intros [Hrow Hid] Hst. simpl in *. intros -> -> -> Hx.
  unfold TaskService.start_task.
  unfold_ports. run. table_simpl. rewrite Hrow. simpl. rewrite Hst. simpl.
  table_simpl. rewrite Hid, Hrow. simpl. table_simpl. rewrite Hid. table_simpl.
  rewrite Hx. simpl. table_simpl.
  eexists _, _. split; [reflexivity|]. simpl.
  split; [by rewrite last_snoc|]. split; [apply lookup_insert_eq|done].
Qed.

(** C1, evaluated where the broker rejects every entry.  Each of the five
    use cases raises the publisher's error and ends with a rollback of the
    unit of work, but the table already holds the write made by [save]: the
    created row exists, and the stored row carries the new status or
    assignee. *)
Theorem publish_failure_leaves_write_committed :
  let failure := inl (ClientError (lit "redis.exceptions.ConnectionError")) in
  let created :=
    TaskService.create_task (lit "Buy milk") (lit "2% milk, 1 gallon") HIGH
      (Some (lit "alice")) None Scenario.broker_down in
  let started := TaskService.start_task 7 None (Scenario.one_pending true) in
  let completed := TaskService.complete_task 7 None (Scenario.one_pending true) in
  let cancelled := TaskService.cancel_task 7 None None (Scenario.one_pending true) in
  let assigned := TaskService.assign_task 7 (lit "bob") None (Scenario.one_pending true) in
  (created.2 = failure
   ∧ last (calls created.1) = Some call_uow_rollback
   ∧ tasks Scenario.broker_down !! 1000 = None
   ∧ TaskModel.title <$> tasks created.1 !! 1000 = Some (lit "Buy milk"))
  ∧ (started.2 = failure
     ∧ last (calls started.1) = Some call_uow_rollback
     ∧ TaskModel.status <$> tasks (Scenario.one_pending true) !! 7 = Some PENDING
     ∧ TaskModel.status <$> tasks started.1 !! 7 = Some IN_PROGRESS)
  ∧ (completed.2 = failure
     ∧ last (calls completed.1) = Some call_uow_rollback
     ∧ TaskModel.status <$> tasks completed.1 !! 7 = Some COMPLETED)
  ∧ (cancelled.2 = failure
     ∧ last (calls cancelled.1) = Some call_uow_rollback
     ∧ TaskModel.status <$> tasks cancelled.1 !! 7 = Some CANCELLED)
  ∧ (assigned.2 = failure
     ∧ last (calls assigned.1) = Some call_uow_rollback
     ∧ TaskModel.assigned_to <$> tasks (Scenario.one_pending true) !! 7 = Some None
     ∧ TaskModel.assigned_to <$> tasks assigned.1 !! 7 = Some (Some (lit "bob"))).
Proof. vm_compute. repeat split. Qed.

(** ** Statistics *)

Lemma count_spec (w : World) (status : option TaskStatus) (assigned_to : option str) :
  session_factory w = true →
  SQLAlchemyTaskRepository.count status assigned_to w
  = (set_calls (calls w ++ [call_count status assigned_to]) w,
     inr (length (filter (λ row, SQLAlchemyTaskRepository.matches status assigned_to None row)
                    (table_rows w)))).
Proof.
  destruct w as [r tb sf us rc xr xc st cs]. simpl. intros ->.
  unfold SQLAlchemyTaskRepository.count, session_rows, table_rows. run.
  by rewrite apply_pending_empty.
Qed.

Lemma get_all_spec (w : World) (status : option TaskStatus) (assigned_to : option str)
    (priority : option TaskPriority) (limit offset : nat) :
  session_factory w = true →
  SQLAlchemyTaskRepository.get_all status assigned_to priority limit offset w
  = (set_calls (calls w ++ [call_get_all status assigned_to priority limit offset]) w,
     inr (SQLAlchemyTaskRepository._to_domain
          <$> take limit (drop offset
                (merge_sort SQLAlchemyTaskRepository.newest_first
                   (filter (λ row, SQLAlchemyTaskRepository.matches status assigned_to priority row)
                      (table_rows w)))))).
Proof.
  destruct w as [r tb sf us rc xr xc st cs]. simpl. intros ->.
  unfold SQLAlchemyTaskRepository.get_all, session_rows, table_rows. run.
  by rewrite apply_pending_empty.
Qed.

(** At most [limit] tasks are fetched. *)
Lemma get_all_length (w w' : World) status assigned_to priority limit offset fetched :
  SQLAlchemyTaskRepository.get_all status assigned_to priority limit offset w
  = (w', inr fetched) →
  (length fetched ≤ limit)%nat.
Proof.
  destruct w as [r tb sf us rc xr xc st cs].
  unfold SQLAlchemyTaskRepository.get_all, session_rows. run.
  destruct sf; [|discriminate]. intros [= _ <-].
  rewrite length_fmap, length_take. lia.
Qed.

Lemma filter_all {A} (P : A → Prop) `{∀ x, Decision (P x)} (l : list A) :
  (∀ x, P x) → filter P l = l.
Proof.
  intros HP. induction l as [|x l IH]; [done|].
  rewrite filter_cons_True by done. by rewrite IH.
Qed.

Lemma filter_none {A} (P : A → Prop) `{∀ x, Decision (P x)} (l : list A) :
  (∀ x, ¬ P x) → filter P l = [].
Proof.
  intros HP. induction l as [|x l IH]; [done|].
  by rewrite filter_cons_False.
Qed.

Lemma length_filter_ext {A} (P Q : A → Prop) `{∀ x, Decision (P x)} `{∀ x, Decision (Q x)}
    (l : list A) :
  (∀ x, P x ↔ Q x) → length (filter P l) = length (filter Q l).
Proof.
  intros HPQ. induction l as [|x l IH]; [done|].
  destruct (decide (P x)) as [HP|HP].
  - rewrite !filter_cons_True by (done || by apply HPQ). simpl. by rewrite IH.
  - rewrite !filter_cons_False by (done || by rewrite <- HPQ). done.
Qed.

Lemma length_filter_fmap {A B} (f : A → B) (P : B → Prop) `{∀ x, Decision (P x)}
    (l : list A) :
  length (filter P (f <$> l)) = length (filter (λ x, P (f x)) l).
Proof.
  induction l as [|x l IH]; [done|]. rewrite fmap_cons.
  destruct (decide (P (f x))) as [HP|HP].
  - rewrite !filter_cons_True by done. simpl. by rewrite IH.
  - by rewrite !filter_cons_False.
Qed.

(** Every row has exactly one status and one priority. *)
Lemma statuses_partition (w : World) :
  length (table_rows w)
  = (with_status PENDING w + with_status IN_PROGRESS w
     + with_status COMPLETED w + with_status CANCELLED w)%nat.
Proof.
  unfold with_status. induction (table_rows w) as [|row l IH]; [done|].
  destruct (TaskModel.status row) eqn:E;
    repeat first [ rewrite filter_cons_True by (by rewrite E)
                 | rewrite filter_cons_False by (by rewrite E) ];
    simpl; lia.
Qed.

Lemma priorities_partition (w : World) :
  length (table_rows w)
  = (with_priority LOW w + with_priority MEDIUM w
     + with_priority HIGH w + with_priority CRITICAL w)%nat.
Proof.
  unfold with_priority. induction (table_rows w) as [|row l IH]; [done|].
  destruct (TaskModel.priority row) eqn:E;
    repeat first [ rewrite filter_cons_True by (by rewrite E)
                 | rewrite filter_cons_False by (by rewrite E) ];
    simpl; lia.
Qed.

Lemma count_status_spec (w : World) (s : TaskStatus) :
  length (filter (λ row, SQLAlchemyTaskRepository.matches (Some s) None None row)
            (table_rows w))
  = with_status s w.
Proof.
  unfold with_status. apply length_filter_ext. intros row.
  unfold SQLAlchemyTaskRepository.matches. rewrite !andb_true_r.
  apply bool_decide_spec.
Qed.

Lemma TaskPriority_value_inj (p q : TaskPriority) :
  TaskPriority_value p = TaskPriority_value q → p = q.
Proof. by destruct p, q. Qed.

(** The tally holds, for each key, the number of tasks whose priority has
    that value, and no entry for a key that never occurs. *)
Lemma tally_lookup (l : list Task.t) (k : str) :
  TaskService.tally_priorities l !! k
  = let c := length (filter (λ t, TaskPriority_value (Task.priority t) = k) l) in
    if decide (c = 0%nat) then None else Some (Z.of_nat c).
Proof.
  unfold TaskService.tally_priorities.
  induction l as [|x l IH] using rev_ind; [simpl; by rewrite lookup_empty|].
  rewrite foldl_app. cbv zeta in *. rewrite filter_app, length_app.
  destruct (decide (TaskPriority_value (Task.priority x) = k)) as [<-|Hne].
  - rewrite (filter_cons_True _ x []) by done.
    change (foldl ?f ?a [x]) with (f a x). cbv beta.
    rewrite lookup_insert_eq, IH.
    set (c := length (filter _ l)). rewrite filter_nil. simpl length.
    destruct (decide (c = 0%nat)) as [->|Hc]; simpl.
    + reflexivity.
    + destruct (decide ((c + 1)%nat = 0%nat)) as [?|?]; [lia|]. f_equal. lia.
  - rewrite (filter_cons_False _ x []) by done.
    change (foldl ?f ?a [x]) with (f a x). cbv beta.
    rewrite lookup_insert_ne by done. rewrite IH.
    rewrite filter_nil. simpl length. by rewrite Nat.add_0_r.
Qed.

Lemma bind_returns {S A B} (m : M S A) (f : A → M S B) (s s' : S) (a : A) :
  m s = (s', inr a) → (m ≫= f) s = f a s'.
Proof. unfold mbind, M_bind. by intros ->. Qed.

Lemma count_by_status_spec (w : World) (assigned_to : option str)
    (statuses : list TaskStatus) (acc : gmap str Z) :
  session_factory w = true →
  TaskService.count_by_status assigned_to statuses acc w
  = (set_calls (calls w ++ ((λ s, call_count (Some s) assigned_to) <$> statuses)) w,
     inr (foldl (λ acc s,
                   let count :=
                     length (filter (λ row, SQLAlchemyTaskRepository.matches
                                              (Some s) assigned_to None row)
                               (table_rows w)) in
                   if bool_decide (0 < count)%nat
                   then <[TaskStatus_value s := Z.of_nat count]> acc else acc)
            acc statuses)).
Proof.
  revert w acc. induction statuses as [|s statuses IH]; intros w acc Hf.
  - simpl. destruct w. unfold mret, M_ret, set_calls. simpl. by rewrite app_nil_r.
  - simpl. erewrite bind_returns by (by apply count_spec).
    rewrite IH by done. destruct w. unfold set_calls, table_rows. simpl.
    by rewrite <- app_assoc.
Qed.

(** Which priority, if any, has a given [value]. *)
Lemma priority_value_count (l : list Task.t) (k : str) :
  length (filter (λ t, TaskPriority_value (Task.priority t) = k) l)
  = if decide (k = lit "low") then length (filter (λ t, Task.priority t = LOW) l)
    else if decide (k = lit "medium") then length (filter (λ t, Task.priority t = MEDIUM) l)
    else if decide (k = lit "high") then length (filter (λ t, Task.priority t = HIGH) l)
    else if decide (k = lit "critical") then length (filter (λ t, Task.priority t = CRITICAL) l)
    else 0%nat.
Proof.
  repeat case_decide; subst;
    try (apply length_filter_ext; intros t;
         split; [apply (TaskPriority_value_inj _ LOW)
                 || apply (TaskPriority_value_inj _ MEDIUM)
                 || apply (TaskPriority_value_inj _ HIGH)
                 || apply (TaskPriority_value_inj _ CRITICAL)|by intros ->]).
  rewrite filter_none; [done|]. intros t Ht. by destruct (Task.priority t).
Qed.

Lemma fetched_priority_count (w : World) (p : TaskPriority) (limit : nat) :
  (length (table_rows w) ≤ limit)%nat →
  length (filter (λ t, Task.priority t = p)
            (SQLAlchemyTaskRepository._to_domain
             <$> take limit (drop 0
                   (merge_sort SQLAlchemyTaskRepository.newest_first
                      (filter (λ row, SQLAlchemyTaskRepository.matches None None None row)
                         (table_rows w))))))
  = with_priority p w.
Proof.
  intros Hlen. unfold with_priority.
  rewrite (filter_all _ (table_rows w)) by done.
  rewrite drop_0, take_ge by (by rewrite merge_sort_Permutation).
  rewrite length_filter_fmap. simpl.
  by rewrite merge_sort_Permutation.
Qed.

Lemma table_rows_set_calls (cs : list Call) (w : World) :
  table_rows (set_calls cs w) = table_rows w.
Proof. by destruct w. Qed.

(** C7. Over any store that holds three Pending, one Completed and one
    Cancelled task and nothing else, four of them of Medium priority and one
    of High priority, [get_task_statistics] with no assignee filter returns
    total 5, the per-status counts without an entry for the status that has
    no task, and the per-priority counts.  The per-priority counts are
    tallied from the list that one [get_all] call with limit 1000 returned,
    which has at most 1000 elements. *)
Theorem statistics_of_five_tasks (w : World) :
  session_factory w = true →
  with_status PENDING w = 3%nat →
  with_status IN_PROGRESS w = 0%nat →
  with_status COMPLETED w = 1%nat →
  with_status CANCELLED w = 1%nat →
  with_priority MEDIUM w = 4%nat →
  with_priority HIGH w = 1%nat →
  ∃ w' fetched,
    TaskService.get_task_statistics None w
    = (w',
       inr {[ lit "total" := VInt 5;
              lit "by_status" :=
                VDict {[ lit "pending" := VInt 3;
                         lit "completed" := VInt 1;
                         lit "cancelled" := VInt 1 ]};
              lit "by_priority" :=
                VDict {[ lit "medium" := VInt 4; lit "high" := VInt 1 ]} ]})
    ∧ tasks w' = tasks w
    ∧ last (calls w') = Some (call_get_all None None None 1000 0)
    ∧ (length fetched ≤ 1000)%nat
    ∧ VInt <$> TaskService.tally_priorities fetched
      = {[ lit "medium" := VInt 4; lit "high" := VInt 1 ]}.
Proof.
  intros Hf Hp Hi Hc Hx Hm Hh.
  assert (length (table_rows w) = 5%nat) as Hlen.
  { rewrite statuses_partition. lia. }
  assert (with_priority LOW w = 0%nat ∧ with_priority CRITICAL w = 0%nat) as [Hl Hcr].
  { pose proof (priorities_partition w). lia. }
  set (fetched :=
         SQLAlchemyTaskRepository._to_domain
         <$> take 1000 (drop 0
               (merge_sort SQLAlchemyTaskRepository.newest_first
                  (filter (λ row, SQLAlchemyTaskRepository.matches None None None row)
                     (table_rows w))))).
  assert (VInt <$> TaskService.tally_priorities fetched
          = ({[ lit "medium" := VInt 4; lit "high" := VInt 1 ]} : Dict)) as Htally.
  { apply map_eq. intros k. rewrite lookup_fmap, tally_lookup. cbv zeta.
    rewrite priority_value_count. unfold fetched.
    rewrite !fetched_priority_count by lia. rewrite Hl, Hm, Hh, Hcr.
    repeat case_decide; subst; try done.
    by rewrite lookup_insert_ne, lookup_singleton_ne by done. }
  exists (set_calls (calls w ++ [call_count None None] 
                     ++ ((λ s, call_count (Some s) None) <$> all_TaskStatus)
                     ++ [call_get_all None None None 1000 0]) w), fetched.
  split; [|split; [by destruct w|split; [|split; [|done]]]].
  - unfold TaskService.get_task_statistics.
    erewrite bind_returns by (by apply count_spec).
    erewrite bind_returns by (by apply count_by_status_spec).
    erewrite bind_returns by (by apply get_all_spec).
    rewrite !table_rows_set_calls. fold fetched. rewrite Htally.
    unfold mret, M_ret. f_equal.
    + destruct w. unfold set_calls. simpl. by rewrite <- !app_assoc.
    + unfold all_TaskStatus. cbn [foldl]. cbv zeta.
      rewrite !count_status_spec, Hp, Hi, Hc, Hx.
      rewrite (filter_all _ (table_rows w)) by done. rewrite Hlen.
      reflexivity.
  - destruct w. unfold set_calls. cbn [calls]. by rewrite !app_assoc, last_snoc.
  - unfold fetched. rewrite length_fmap, length_take. lia.
Qed.

Lemma statistics_witness :
  ∃ w',
    TaskService.get_task_statistics None Scenario.five_tasks
    = (w',
       inr {[ lit "total" := VInt 5;
              lit "by_status" :=
                VDict {[ lit "pending" := VInt 3;
                         lit "completed" := VInt 1;
                         lit "cancelled" := VInt 1 ]};
              lit "by_priority" :=
                VDict {[ lit "medium" := VInt 4; lit "high" := VInt 1 ]} ]}).
Proof.
  destruct (statistics_of_five_tasks Scenario.five_tasks) as (w' & fetched & H & _);
    [vm_compute; reflexivity ..|].
  by exists w'.
Defined.


(** ** Numerals *)

Lemma to_digits_length (base : N) (width : nat) (n : N) :
  length (to_digits base width n) = width.
Proof.
  revert n. induction width as [|w IH]; intros n; simpl; [done|].
  rewrite length_app, IH. simpl. lia.
Qed.

Lemma to_digits_bound (base : N) (width : nat) (n : N) :
  0 < base → Forall (λ d, d < base) (to_digits base width n).
Proof.
  intros Hb. revert n. induction width as [|w IH]; intros n; simpl; [constructor|].
  apply Forall_app. split; [apply IH|].
  constructor; [|constructor]. apply N.mod_lt. lia.
Qed.

Lemma of_digits_snoc (base : N) (ds : list N) (d : N) :
  of_digits base (ds ++ [d]) = of_digits base ds * base + d.
Proof. unfold of_digits. by rewrite foldl_app. Qed.

Lemma of_to_digits (base : N) (width : nat) (n : N) :
  0 < base → n < base ^ N.of_nat width →
  of_digits base (to_digits base width n) = n.
Proof.
  intros Hb. revert n. induction width as [|w IH]; intros n Hn.
  - simpl in *. unfold of_digits. simpl. lia.
  - simpl. rewrite of_digits_snoc, IH.
    + rewrite N.mul_comm. symmetry. apply N.div_mod. lia.
    + rewrite Nat2N.inj_succ, N.pow_succ_r' in Hn.
      apply N.Div0.div_lt_upper_bound. lia.
Qed.

Lemma hex_val_char (d : N) : d < 16 → hex_val (hex_char d) = Some d.
Proof.
  intros Hd. unfold hex_val, hex_char.
  destruct (d <? 10) eqn:E.
  - apply N.ltb_lt in E.
    replace ((48 <=? 48 + d) && (48 + d <=? 57)) with true
      by (symmetry; apply andb_true_iff; split; apply N.leb_le; lia).
    f_equal. lia.
  - apply N.ltb_ge in E.
    replace ((48 <=? 87 + d) && (87 + d <=? 57)) with false
      by (symmetry; apply andb_false_iff; right; apply N.leb_gt; lia).
    replace ((97 <=? 87 + d) && (87 + d <=? 102)) with true
      by (symmetry; apply andb_true_iff; split; apply N.leb_le; lia).
    f_equal. lia.
Qed.

Lemma dec_val_char (d : N) : d < 10 → dec_val (dec_char d) = Some d.
Proof.
  intros Hd. unfold dec_val, dec_char.
  replace ((48 <=? 48 + d) && (48 + d <=? 57)) with true
    by (symmetry; apply andb_true_iff; split; apply N.leb_le; lia).
  f_equal. lia.
Qed.

Lemma mapM_inverse (f : N → N) (g : N → option N) (bound : N) (ds : list N) :
  (∀ d, d < bound → g (f d) = Some d) →
  Forall (λ d, d < bound) ds → mapM g (f <$> ds) = Some ds.
Proof.
  intros Hgf Hds. apply mapM_Some. induction Hds as [|d ds Hd _ IH]; constructor; auto.
Qed.

Lemma read_hex_fmt (width : nat) (n : N) :
  n < 16 ^ N.of_nat width → read_hex (fmt_hex width n) = Some n.
Proof.
  intros Hn. unfold read_hex, fmt_hex.
  rewrite (mapM_inverse hex_char hex_val 16) by
    (apply hex_val_char || (apply to_digits_bound; lia)).
  simpl. by rewrite of_to_digits by (lia || done).
Qed.

Lemma read_dec_fmt (width : nat) (n : N) :
  n < 10 ^ N.of_nat width → read_dec (fmt_dec width n) = Some n.
Proof.
  intros Hn. unfold read_dec, fmt_dec.
  rewrite (mapM_inverse dec_char dec_val 10) by
    (apply dec_val_char || (apply to_digits_bound; lia)).
  simpl. by rewrite of_to_digits by (lia || done).
Qed.

Lemma fmt_hex_length (width : nat) (n : N) : length (fmt_hex width n) = width.
Proof. unfold fmt_hex. by rewrite length_fmap, to_digits_length. Qed.

Lemma fmt_dec_length (width : nat) (n : N) : length (fmt_dec width n) = width.
Proof. unfold fmt_dec. by rewrite length_fmap, to_digits_length. Qed.

(** [UUID(str(u)) == u]. *)
Lemma read_str_UUID (u : UUID) : valid_UUID u → read_UUID (str_UUID u) = Some u.
Proof.
  intros Hu. pose proof (read_hex_fmt 32 u Hu) as Hr.
  pose proof (fmt_hex_length 32 u) as Hl.
  unfold str_UUID. cbv zeta.
  destruct (fmt_hex 32 u) as [|c0 h]; [discriminate|].
  do 31 (destruct h as [|? h]; [discriminate|]).
  destruct h; [|discriminate].
  exact Hr.
Qed.

Local Arguments read_dec : simpl never.

(** [datetime.fromisoformat(d.isoformat()) == d]. *)
Lemma fromisoformat_isoformat (d : datetime) :
  valid_datetime d → fromisoformat (isoformat d) = Some d.
Proof.
  destruct d as [y mo dd h mi s us].
  intros (Hy & Hmo & Hd & Hh & Hmi & Hs & Hus). simpl in *.
  pose proof (read_dec_fmt 4 y ltac:(simpl; lia)) as Ry.
  pose proof (read_dec_fmt 2 mo ltac:(simpl; lia)) as Rmo.
  pose proof (read_dec_fmt 2 dd ltac:(simpl; lia)) as Rd.
  pose proof (read_dec_fmt 2 h ltac:(simpl; lia)) as Rh.
  pose proof (read_dec_fmt 2 mi ltac:(simpl; lia)) as Rmi.
  pose proof (read_dec_fmt 2 s ltac:(simpl; lia)) as Rs.
  pose proof (read_dec_fmt 6 us ltac:(simpl; lia)) as Rus.
  pose proof (fmt_dec_length 4 y) as Ly.
  pose proof (fmt_dec_length 2 mo) as Lmo.
  pose proof (fmt_dec_length 2 dd) as Ld.
  pose proof (fmt_dec_length 2 h) as Lh.
  pose proof (fmt_dec_length 2 mi) as Lmi.
  pose proof (fmt_dec_length 2 s) as Ls.
  pose proof (fmt_dec_length 6 us) as Lus.
  unfold isoformat. cbn [year month day hour minute second microsecond].
  destruct (fmt_dec 4 y) as [|? [|? [|? [|? [|? ?]]]]]; try discriminate.
  destruct (fmt_dec 2 mo) as [|? [|? [|? ?]]]; try discriminate.
  destruct (fmt_dec 2 dd) as [|? [|? [|? ?]]]; try discriminate.
  destruct (fmt_dec 2 h) as [|? [|? [|? ?]]]; try discriminate.
  destruct (fmt_dec 2 mi) as [|? [|? [|? ?]]]; try discriminate.
  destruct (fmt_dec 2 s) as [|? [|? [|? ?]]]; try discriminate.
  destruct (us =? 0) eqn:E.
  - apply N.eqb_eq in E. subst us.
    unfold fromisoformat. simpl.
    rewrite Ry, Rmo, Rd, Rh, Rmi, Rs. reflexivity.
  - destruct (fmt_dec 6 us) as [|? [|? [|? [|? [|? [|? [|? ?]]]]]]]; try discriminate.
    unfold fromisoformat. simpl.
    rewrite Ry, Rmo, Rd, Rh, Rmi, Rs. simpl. rewrite Rus. reflexivity.
Qed.

(** ** Wire mapping of events *)

(** C8. For each of the five event variants, the wire mapping built by
    [to_dict] holds the class name under "event_type", the text of the
    identifier under "event_id", the ISO text of the timestamp under
    "occurred_at" and the variant's fields under "data"; reading these
    type-tagged fields back yields the event one started from, optional
    fields that are [None] included. *)
Theorem to_dict_round_trip (e : DomainEvent.t) :
  Wire.valid_event e →
  DomainEvent.to_dict e !! lit "event_type" = Some (VStr (DomainEvent.class_name e))
  ∧ DomainEvent.to_dict e !! lit "event_id"
    = Some (VStr (str_UUID (DomainEvent.event_id e)))
  ∧ DomainEvent.to_dict e !! lit "occurred_at"
    = Some (VStr (isoformat (DomainEvent.occurred_at e)))
  ∧ DomainEvent.to_dict e !! lit "data" = Some (VDict (DomainEvent._get_event_data e))
  ∧ Wire.read_event (DomainEvent.to_dict e) = Some e.
Proof.
  intros (Hid & Hat & Htask).
  unfold DomainEvent.to_dict. repeat split; try (by lookup_literal).
  unfold Wire.read_event, Wire.get_str, Wire.get_dict.
  lookup_literal. cbn [mbind option_bind].
  rewrite (read_str_UUID _ Hid), (fromisoformat_isoformat _ Hat). cbn [mbind option_bind].
  destruct e as [i d t ti a p|i d t a|i d t a|i d t a r|i d t a b];
    cbn [DomainEvent._get_event_data DomainEvent.class_name] in *;
    unfold Wire.get_optional; lookup_literal; cbn [mbind option_bind];
    simpl in Htask; rewrite (read_str_UUID _ Htask); cbn [mbind option_bind];
    repeat case_decide; try done;
    repeat match goal with o : option str |- _ => destruct o end; reflexivity.
Qed.

Lemma to_dict_round_trip_witness :
  let e :=
    DomainEvent.TaskCancelledEvent 1001 (mk_datetime 2024 5 17 9 30 0 250) 7
      None (Some (lit "duplicate")) in
  Wire.read_event (DomainEvent.to_dict e) = Some e.
Proof.
  apply (to_dict_round_trip
           (DomainEvent.TaskCancelledEvent 1001 (mk_datetime 2024 5 17 9 30 0 250) 7
              None (Some (lit "duplicate")))).
  repeat split; simpl; unfold valid_UUID; lia.
Defined.


(** ** The stream consumer loop *)

Section ConsumerLoop.

Import RedisStreamConsumer.

Context {R H : Type}.
Variable env : Collaborators R H.














End ConsumerLoop.

(** The scenario of C9 run on a scripted broker: the entry is delivered
    twice, the handler raises the first time and returns the second time,
    and the only acknowledgment comes last. *)
Example redelivered_message_acknowledged_once :
  RedisStreamConsumer.events_of_run Redelivery.env 5 Redelivery.consumer
  = [RedisStreamConsumer.ev_processed Redelivery.message.1 true;
     RedisStreamConsumer.ev_processed Redelivery.message.1 false;
     RedisStreamConsumer.ev_xack Redelivery.message.1]
  ∧ (RedisStreamConsumer.run Redelivery.env 5 Redelivery.consumer).2 = Some (inr tt).
Proof. vm_compute. done. Qed.

(** * Further properties *)

(** ** The Task entity under arbitrary calls *)

Lemma perform_all_snoc (cs : list TaskCall) (c : TaskCall) (s : Task.t * Runtime) :
  perform_all (cs ++ [c]) s = (perform c (perform_all cs s)).1.
Proof. unfold perform_all. by rewrite foldl_app. Qed.

(** An induction over the calls made so far. *)
Lemma perform_all_ind (P : Task.t → Prop) (x : Task.t) (r : Runtime) (cs : list TaskCall) :
  P x →
  (∀ c y q, P y → P (perform c (y, q)).1.1) →
  P (perform_all cs (x, r)).1.
Proof.
  intros Hx Hstep. induction cs as [|c cs IH] using rev_ind; [done|].
  rewrite perform_all_snoc. destruct (perform_all cs (x, r)) as [y q]. by apply Hstep.
Qed.

(** What one call can do to the status and the completion timestamp, and
    what it never touches. *)
Lemma perform_effect (c : TaskCall) (x : Task.t) (r : Runtime) :
  let x' := (perform c (x, r)).1.1 in
  Task.id x' = Task.id x
  ∧ Task.created_at x' = Task.created_at x
  ∧ Task.priority x' = Task.priority x
  ∧ ((Task.status x' = Task.status x ∧ Task.completed_at x' = Task.completed_at x)
     ∨ (Task.status x = PENDING ∧ Task.status x' = IN_PROGRESS
        ∧ Task.completed_at x' = Task.completed_at x)
     ∨ (Task.status x ∈ [PENDING; IN_PROGRESS] ∧ Task.status x' = COMPLETED
        ∧ is_Some (Task.completed_at x'))
     ∨ (Task.status x ∈ [PENDING; IN_PROGRESS] ∧ Task.status x' = CANCELLED
        ∧ Task.completed_at x' = Task.completed_at x)).
Proof.
  destruct x as [i ti de st pr ca ua co asg].
  assert (∀ s : TaskStatus, s = PENDING ∨ s = IN_PROGRESS →
          s ∈ [PENDING; IN_PROGRESS]) as Hin.
  { intros s [->| ->]; [by left|right; by left]. }
  destruct c as [| | |t d|a|dl]; cbv zeta;
    (split; [|split; [|split]]);
    try (by destruct st);
    try (by destruct t as [[|c0 t]|], d as [[|c1 d]|]).
  - destruct st; simpl; auto.
  - destruct st; simpl; auto;
      right; right; left; (split; [apply Hin; auto|]); (split; [done|by eexists]).
  - destruct st; simpl; auto;
      right; right; right; (split; [apply Hin; auto|]); done.
  - left. by destruct t as [[|c0 t]|], d as [[|c1 d]|].
  - by left.
  - left. by destruct st.
Qed.

(** X1. A task built by [Task.create] and then driven through any calls
    of its methods, failed ones included, has a completion timestamp exactly
    when it is Completed. *)
Theorem completion_recorded_always
    (title description : str) (priority : TaskPriority) (assigned_to : option str)
    (r : Runtime) (cs : list TaskCall) :
  ∃ x r',
    Task.create title description priority assigned_to r = (r', inr x)
    ∧ completion_recorded x
    ∧ completion_recorded (perform_all cs (x, r')).1.
Proof.
  eexists _, _. split; [reflexivity|].
  assert (completion_recorded
            (Task.mk (uuid4_at r (uuid4_calls r)) title description PENDING priority
               (reading r) (reading r) None assigned_to)) as H0.
  { split; simpl; [by intros []|done]. }
  split; [exact H0|].
  apply perform_all_ind; [exact H0|].
  intros c y q [Hy1 Hy2].
  destruct (perform_effect c y q) as (_ & _ & _ & Hcases). cbv zeta in Hcases.
  unfold completion_recorded.
  destruct Hcases as [[-> ->]|[(Hp & -> & ->)|[(_ & -> & Hs)|(Hin & -> & ->)]]].
  - done.
  - split; [|done]. intros Hs. specialize (Hy1 Hs). congruence.
  - done.
  - split; [|done]. intros Hs. specialize (Hy1 Hs).
    rewrite Hy1 in Hin. rewrite !elem_of_cons, elem_of_nil in Hin.
    destruct Hin as [?|[?|[]]]; discriminate.
Qed.

(** X2. Completed and Cancelled are final: whatever methods are called
    afterwards, the status and the completion timestamp stay as they are. *)
Theorem terminal_status_is_final (cs : list TaskCall) (x : Task.t) (r : Runtime) :
  Task.status x ∈ [COMPLETED; CANCELLED] →
  Task.status (perform_all cs (x, r)).1 = Task.status x
  ∧ Task.completed_at (perform_all cs (x, r)).1 = Task.completed_at x.
Proof.
  intros Hterm.
  apply (perform_all_ind
           (λ y, Task.status y = Task.status x
                 ∧ Task.completed_at y = Task.completed_at x)); [done|].
  intros c y q [Hs Hc].
  destruct (perform_effect c y q) as (_ & _ & _ & Hcases). cbv zeta in Hcases.
  assert (Task.status y ∉ [PENDING; IN_PROGRESS]) as Hnot.
  { rewrite Hs. rewrite !elem_of_cons, elem_of_nil in *.
    destruct Hterm as [->|[->|[]]]; intros [?|[?|[]]]; discriminate. }
  destruct Hcases as [[-> ->]|[(Hp & _)|[(Hin & _)|(Hin & _)]]]; try done.
  exfalso. apply Hnot. rewrite Hp. by left.
Qed.

Lemma terminal_status_witness :
  let x := SQLAlchemyTaskRepository._to_domain (Scenario.row 4 COMPLETED MEDIUM 4) in
  let cs := [do_cancel; do_start; do_assign_to (lit "bob"); do_complete] in
  Task.status (perform_all cs (x, Scenario.runtime)).1 = COMPLETED
  ∧ Task.completed_at (perform_all cs (x, Scenario.runtime)).1 = Task.completed_at x.
Proof.
  apply (terminal_status_is_final
           [do_cancel; do_start; do_assign_to (lit "bob"); do_complete]
           (SQLAlchemyTaskRepository._to_domain (Scenario.row 4 COMPLETED MEDIUM 4))
           Scenario.runtime).
  by left.
Defined.

(** X3. No method of a task ever changes its identifier, its creation
    timestamp or its priority, and the status never moves backwards: once a
    task has left Pending it does not return to it. *)
Theorem identity_and_progress_kept (cs : list TaskCall) (x : Task.t) (r : Runtime) :
  let y := (perform_all cs (x, r)).1 in
  Task.id y = Task.id x
  ∧ Task.created_at y = Task.created_at x
  ∧ Task.priority y = Task.priority x
  ∧ (progress (Task.status x) ≤ progress (Task.status y))%nat.
Proof.
  cbv zeta.
  apply (perform_all_ind
           (λ y, Task.id y = Task.id x ∧ Task.created_at y = Task.created_at x
                 ∧ Task.priority y = Task.priority x
                 ∧ (progress (Task.status x) ≤ progress (Task.status y))%nat));
    [done|].
  intros c y q (Hi & Hc & Hp & Hr).
  destruct (perform_effect c y q) as (-> & -> & -> & Hcases). cbv zeta in Hcases.
  repeat split; try done.
  destruct Hcases as [[-> _]|[(Hy & -> & _)|[(Hin & -> & _)|(Hin & -> & _)]]].
  - done.
  - rewrite Hy in Hr. simpl in *. lia.
  - etrans; [apply Hr|]. destruct (Task.status y); simpl; lia.
  - etrans; [apply Hr|]. destruct (Task.status y); simpl; lia.
Qed.

Lemma lex_leb_refl (a : list N) : lex_leb a a = true.
Proof.
  induction a as [|x a IH]; [done|]. simpl.
  rewrite N.eqb_refl, IH. by rewrite orb_true_r.
Qed.

(** X4. [is_overdue] answers [False] for a Completed or Cancelled task
    without reading the clock; for a Pending or InProgress task it reads the
    clock once and answers whether that reading is strictly later than the
    deadline, so a task is not overdue at the deadline itself.  The task is
    never modified. *)
Theorem is_overdue_only_for_open_tasks (deadline : datetime) (x : Task.t) (r : Runtime) :
  (Task.status x ∈ [COMPLETED; CANCELLED] →
   Task.is_overdue deadline (x, r) = ((x, r), inr false))
  ∧ (Task.status x ∈ [PENDING; IN_PROGRESS] →
     Task.is_overdue deadline (x, r)
     = ((x, after_utcnow r), inr (Task.later_than (reading r) deadline)))
  ∧ Task.later_than deadline deadline = false.
Proof.
  split; [|split].
  - destruct x as [i ti de st pr ca ua co asg]. simpl. intros H.
    rewrite !elem_of_cons, elem_of_nil in H.
    destruct H as [->|[->|[]]]; reflexivity.
  - destruct x as [i ti de st pr ca ua co asg]. simpl. intros H.
    rewrite !elem_of_cons, elem_of_nil in H.
    destruct H as [->|[->|[]]]; reflexivity.
  - unfold Task.later_than, datetime_leb. by rewrite lex_leb_refl.
Qed.

(** ** The repository *)

Lemma get_by_id_spec (w : World) (task_id : UUID) :
  session_factory w = true →
  SQLAlchemyTaskRepository.get_by_id task_id w
  = (set_calls (calls w ++ [call_get_by_id task_id]) w,
     inr (SQLAlchemyTaskRepository._to_domain <$> tasks w !! task_id)).
Proof.
  destruct w as [r tb sf us rc xr xc st cs]. simpl. intros ->.
  unfold_ports. run. by rewrite lookup_empty.
Qed.


Lemma apply_pending_delete (i : UUID) (table : gmap UUID TaskModel.t) :
  apply_pending (<[i := None]> ∅) table = delete i table.
Proof. unfold apply_pending. by rewrite insert_empty, map_fold_singleton. Qed.

Lemma delete_spec (w : World) (task_id : UUID) :
  session_factory w = true →
  well_keyed (tasks w) →
  SQLAlchemyTaskRepository.delete task_id w
  = (set_tasks (delete task_id (tasks w)) w,
     inr (bool_decide (is_Some (tasks w !! task_id)))).
Proof.
  destruct w as [r tb sf us rc xr xc st cs]. simpl. intros -> Hk.
  unfold_more. run. table_simpl.
  destruct (tb !! task_id) as [ex|] eqn:E; simpl.
  - by rewrite (Hk _ _ E), apply_pending_delete.
  - by rewrite delete_id.
Qed.

Lemma exists_spec (w : World) (task_id : UUID) :
  session_factory w = true →
  SQLAlchemyTaskRepository.exists_ task_id w
  = (w, inr (bool_decide (is_Some (tasks w !! task_id)))).
Proof.
  destruct w as [r tb sf us rc xr xc st cs]. simpl. intros ->.
  unfold_more. run. by table_simpl.
Qed.

Lemma well_keyed_insert (table : gmap UUID TaskModel.t) (i : UUID) (row : TaskModel.t) :
  well_keyed table → TaskModel.id row = i → well_keyed (<[i := row]> table).
Proof.
  intros Hk Hi j row'. rewrite lookup_insert.
  case_decide as Hij; [intros [= <-]; by subst|apply Hk].
Qed.

Lemma well_keyed_delete (table : gmap UUID TaskModel.t) (i : UUID) :
  well_keyed table → well_keyed (delete i table).
Proof.
  intros Hk j row'. rewrite lookup_delete.
  case_decide; [done|apply Hk].
Qed.


Lemma five_tasks_well_keyed : well_keyed (tasks Scenario.five_tasks).
Proof.
  unfold Scenario.five_tasks. simpl.
  repeat (apply well_keyed_insert; [|done]).
  intros i row. by rewrite lookup_empty.
Qed.






(** X7. [exists] tells whether a row is stored under the identifier and
    changes nothing.  [delete] answers [True] and removes that row when it
    is stored, and answers [False] and changes nothing when it is not; it
    never touches another row, and afterwards [exists] answers [False] and
    [get_by_id] finds nothing. *)
Theorem delete_removes_only_that_row (w : World) (task_id : UUID) :
  session_factory w = true →
  well_keyed (tasks w) →
  SQLAlchemyTaskRepository.exists_ task_id w
  = (w, inr (bool_decide (is_Some (tasks w !! task_id))))
  ∧ ∃ w1,
      SQLAlchemyTaskRepository.delete task_id w
      = (w1, inr (bool_decide (is_Some (tasks w !! task_id))))
      ∧ tasks w1 !! task_id = None
      ∧ (∀ j, j ≠ task_id → tasks w1 !! j = tasks w !! j)
      ∧ (tasks w !! task_id = None → w1 = w)
      ∧ (SQLAlchemyTaskRepository.exists_ task_id w1).2 = inr false
      ∧ (SQLAlchemyTaskRepository.get_by_id task_id w1).2 = inr None.
Proof.
  intros Hf Hk. split; [by apply exists_spec|].
  rewrite delete_spec by done. eexists. split; [reflexivity|].
  destruct w as [r tb sf us rc xr xc st cs]. simpl in *. subst sf.
  split; [apply lookup_delete_eq|]. split; [intros j Hj; by apply lookup_delete_ne|].
  split; [intros Hnone; unfold set_tasks; simpl; by rewrite delete_id|].
  split.
  - rewrite exists_spec by done. simpl. by rewrite lookup_delete_eq.
  - rewrite get_by_id_spec by done. simpl. by rewrite lookup_delete_eq.
Qed.

Lemma delete_witness :
  ∃ w1,
    SQLAlchemyTaskRepository.delete 4 Scenario.five_tasks = (w1, inr true)
    ∧ tasks w1 !! 4 = None
    ∧ tasks w1 !! 5 = tasks Scenario.five_tasks !! 5.
Proof.
  destruct (delete_removes_only_that_row Scenario.five_tasks 4 eq_refl
              five_tasks_well_keyed) as (_ & w1 & H1 & H2 & H3 & _).
  exists w1. split; [exact H1|]. split; [exact H2|]. by apply H3.
Defined.

(** The chronological order of lists of fields. *)
Lemma lex_leb_total (a b : list N) : lex_leb a b = true ∨ lex_leb b a = true.
Proof.
  revert b. induction a as [|x a IH]; intros [|y b]; simpl; auto.
  destruct (N.lt_trichotomy x y) as [Hlt|[->|Hgt]].
  - left. apply orb_true_iff. left. by apply N.ltb_lt.
  - rewrite N.eqb_refl, N.ltb_irrefl. simpl. apply IH.
  - right. apply orb_true_iff. left. by apply N.ltb_lt.
Qed.

Lemma lex_leb_trans (a b c : list N) :
  lex_leb a b = true → lex_leb b c = true → lex_leb a c = true.
Proof.
  revert b c. induction a as [|x a IH]; intros [|y b] [|z c]; simpl; try done.
  rewrite !orb_true_iff, !andb_true_iff, !N.ltb_lt, !N.eqb_eq.
  intros [Hxy|[-> Hab]] [Hyz|[-> Hbc]]; [left; lia|by left|by left|].
  right. split; [done|]. by apply (IH b).
Qed.

Global Instance newest_first_total : Total SQLAlchemyTaskRepository.newest_first.
Proof.
  intros a b. unfold SQLAlchemyTaskRepository.newest_first, datetime_leb.
  destruct (lex_leb_total (datetime_key (TaskModel.created_at b))
              (datetime_key (TaskModel.created_at a))) as [H|H];
    rewrite H; [by left|by right].
Qed.

Global Instance newest_first_trans : Transitive SQLAlchemyTaskRepository.newest_first.
Proof.
  intros a b c. unfold SQLAlchemyTaskRepository.newest_first, datetime_leb.
  rewrite !Is_true_true. intros H1 H2. by apply (lex_leb_trans _ _ _ H2 H1).
Qed.

Lemma StronglySorted_take_drop {A} (R : relation A) (l : list A) (n m : nat) :
  StronglySorted R l → StronglySorted R (take n (drop m l)).
Proof.
  intros Hl.
  assert (StronglySorted R (drop m l)) as Hd.
  { rewrite <- (take_drop m l) in Hl. by apply StronglySorted_app_1_r in Hl. }
  rewrite <- (take_drop n (drop m l)) in Hd. by apply StronglySorted_app_1_l in Hd.
Qed.

Lemma matches_passes status assigned_to priority (row : TaskModel.t) :
  SQLAlchemyTaskRepository.matches status assigned_to priority row = true →
  passes status assigned_to priority (SQLAlchemyTaskRepository._to_domain row).
Proof.
  unfold SQLAlchemyTaskRepository.matches, passes. simpl.
  rewrite !andb_true_iff. intros [[H1 H2] H3]. repeat split.
  - intros s ->. by apply bool_decide_eq_true in H1.
  - intros a ->. by apply bool_decide_eq_true in H2.
  - intros p ->. by apply bool_decide_eq_true in H3.
Qed.

(** X8. [get_all] only reads: the table is as before.  It returns at most
    [limit] tasks; each of them is stored in the table and passes every
    filter that was given; and they come newest first, no task being older
    than a task listed before it. *)
Theorem get_all_filtered_sorted_bounded
    (w : World) (status : option TaskStatus) (assigned_to : option str)
    (priority : option TaskPriority) (limit offset : nat) :
  session_factory w = true →
  ∃ w1 listed,
    SQLAlchemyTaskRepository.get_all status assigned_to priority limit offset w
    = (w1, inr listed)
    ∧ tasks w1 = tasks w
    ∧ (length listed ≤ limit)%nat
    ∧ (∀ t, t ∈ listed →
         passes status assigned_to priority t
         ∧ ∃ i, tasks w !! i = Some (SQLAlchemyTaskRepository._to_model t))
    ∧ StronglySorted listed_before listed.
Proof.
  intros Hf. rewrite get_all_spec by done. eexists _, _. split; [reflexivity|].
  split; [by destruct w|]. split; [rewrite length_fmap, length_take; lia|]. split.
  - intros t Ht. apply list_elem_of_fmap in Ht as (row & -> & Hrow).
    apply (subseteq_take _ _) in Hrow. apply (subseteq_drop _ _) in Hrow.
    rewrite merge_sort_Permutation in Hrow.
    apply list_elem_of_filter in Hrow as [Hm Hrow]. split.
    + apply matches_passes. by apply Is_true_true.
    + unfold table_rows in Hrow. apply list_elem_of_fmap in Hrow as ([i row'] & -> & Hin).
      apply elem_of_map_to_list in Hin. exists i. by destruct row'.
  - eapply (StronglySorted_fmap _ SQLAlchemyTaskRepository.newest_first); [done|].
    apply StronglySorted_take_drop. apply StronglySorted_merge_sort; apply _.
Qed.

Lemma get_all_witness :
  ∃ w1 listed,
    SQLAlchemyTaskRepository.get_all (Some PENDING) None None 2 0 Scenario.five_tasks
    = (w1, inr listed)
    ∧ (length listed ≤ 2)%nat
    ∧ StronglySorted listed_before listed.
Proof.
  destruct (get_all_filtered_sorted_bounded Scenario.five_tasks (Some PENDING) None None
              2 0 eq_refl) as (w1 & listed & H1 & _ & H3 & _ & H5).
  by exists w1, listed.
Defined.



(** X10. Without a priority filter, [count] gives the number of tasks that
    [get_all] would list in full: a page holds [limit] tasks, or what is
    left of the count after the offset when that is less. *)
Theorem count_bounds_get_all
    (w : World) (status : option TaskStatus) (assigned_to : option str)
    (limit offset : nat) :
  session_factory w = true →
  ∃ w1 w2 n listed,
    SQLAlchemyTaskRepository.count status assigned_to w = (w1, inr n)
    ∧ SQLAlchemyTaskRepository.get_all status assigned_to None limit offset w1
      = (w2, inr listed)
    ∧ length listed = (limit `min` (n - offset))%nat.
Proof.
  intros Hf. rewrite count_spec by done.
  eexists _, _, _, _. split; [reflexivity|].
  rewrite get_all_spec by (by destruct w). rewrite table_rows_set_calls.
  split; [reflexivity|].
  by rewrite length_fmap, length_take, length_drop, merge_sort_Permutation.
Qed.

Lemma count_bounds_witness :
  ∃ w1 w2 listed,
    SQLAlchemyTaskRepository.count (Some PENDING) None Scenario.five_tasks
    = (w1, inr 3%nat)
    ∧ SQLAlchemyTaskRepository.get_all (Some PENDING) None None 2 2 w1
      = (w2, inr listed)
    ∧ length listed = 1%nat.
Proof.
  destruct (count_bounds_get_all Scenario.five_tasks (Some PENDING) None 2 2 eq_refl)
    as (w1 & w2 & n & listed & H1 & H2 & H3).
  assert (n = 3%nat) as ->.
  { rewrite count_spec in H1 by done. injection H1 as _ <-. by vm_compute. }
  by exists w1, w2, listed.
Defined.

(** ** The unit of work *)

Lemma enter_spec (w : World) :
  uow_session w = None →
  session_factory w = true →
  SQLAlchemyUnitOfWork.__enter__ w
  = (set_uow_session (Some new_session) (set_calls (calls w ++ [call_uow_enter]) w),
     inr tt).
Proof.
  destruct w as [r tb sf us rc xr xc st cs]. simpl. intros -> ->.
  unfold_ports. by run.
Qed.

Lemma exit_spec (w : World) (exc : option exn) :
  uow_session w = Some new_session →
  SQLAlchemyUnitOfWork.__exit__ exc w
  = (set_uow_session None
       (set_calls (calls w ++ [call_uow_exit exc;
                               match exc with
                               | None => call_uow_commit
                               | Some _ => call_uow_rollback
                               end]) w),
     inr tt).
Proof.
  destruct w as [r tb sf us rc xr xc st cs]. simpl. intros ->.
  unfold_ports. run. destruct exc; run; table_simpl; by rewrite <- app_assoc.
Qed.

(** X11. [with self.unit_of_work] always releases the unit of work and
    never alters the outcome of its body: a body that raises makes the block
    raise the same exception after one rollback, a body that returns makes
    the block return the same value after one commit, and in both cases no
    unit of work is active afterwards.  Since no write ever goes through the
    unit of work's own session, neither the commit nor the rollback changes
    the table. *)
Theorem unit_of_work_released {A} (body : M World A) (w : World) :
  uow_session w = None →
  session_factory w = true →
  (∀ w1, uow_session w1 = Some new_session →
         uow_session (body w1).1 = Some new_session) →
  ∃ w0 w1 w2 outcome,
    SQLAlchemyUnitOfWork.__enter__ w = (w0, inr tt)
    ∧ body w0 = (w1, outcome)
    ∧ TaskService.with_unit_of_work body w = (w2, outcome)
    ∧ uow_session w2 = None
    ∧ tasks w2 = tasks w1
    ∧ stream w2 = stream w1
    ∧ calls_since w1 w2
      = match outcome with
        | inl e => [call_uow_exit (Some e); call_uow_rollback]
        | inr _ => [call_uow_exit None; call_uow_commit]
        end.
Proof.
  intros Hnone Hf Hbody.
  pose proof (enter_spec w Hnone Hf) as He.
  set (w0 := set_uow_session (Some new_session)
               (set_calls (calls w ++ [call_uow_enter]) w)) in *.
  destruct (body w0) as [w1 outcome] eqn:Hb.
  assert (uow_session w1 = Some new_session) as Hs1.
  { specialize (Hbody w0). rewrite Hb in Hbody. apply Hbody. by destruct w. }
  exists w0, w1,
    (SQLAlchemyUnitOfWork.__exit__
       (match outcome with inl e => Some e | inr _ => None end) w1).1, outcome.
  split; [done|]. split; [done|].
  unfold TaskService.with_unit_of_work, with_. rewrite He, Hb.
  destruct outcome as [e|a].
  - rewrite (exit_spec w1 (Some e) Hs1). split; [reflexivity|].
    destruct w1. simpl. repeat split. by apply calls_since_app.
  - rewrite (exit_spec w1 None Hs1). split; [reflexivity|].
    destruct w1. simpl. repeat split. by apply calls_since_app.
Qed.

Lemma unit_of_work_released_witness :
  ∃ w2,
    TaskService.with_unit_of_work
      (raise (EntityNotFoundException (lit "Task") 7) : M World Task.t) Scenario.healthy
    = (w2, inl (EntityNotFoundException (lit "Task") 7))
    ∧ uow_session w2 = None
    ∧ last (calls w2) = Some call_uow_rollback.
Proof.
  destruct (unit_of_work_released
              (raise (EntityNotFoundException (lit "Task") 7) : M World Task.t)
              Scenario.healthy eq_refl eq_refl)
    as (w0 & w1 & w2 & outcome & H0 & H1 & H2 & H3 & _ & _ & H6); [done|].
  injection H1 as <- <-.
  exists w2. split; [done|]. split; [done|].
  unfold calls_since in H6. rewrite <- (take_drop (length (calls w0)) (calls w2)), H6.
  by rewrite last_app.
Defined.

(** X12. The unit of work is not re-entrant.  A [with] block opened while
    one is active raises [RuntimeError] without running its body and without
    closing the active one; [commit] and [rollback] outside of any block
    raise [RuntimeError] as well; none of them touches the table. *)
Theorem unit_of_work_misuse {A} (body : M World A) (w : World) (s : Session) :
  (uow_session w = Some s →
   TaskService.with_unit_of_work body w
   = (set_calls (calls w ++ [call_uow_enter]) w,
      inl (RuntimeError (lit "Unit of work already active"))))
  ∧ (uow_session w = None →
     SQLAlchemyUnitOfWork.commit w
     = (set_calls (calls w ++ [call_uow_commit]) w,
        inl (RuntimeError (lit "No active transaction")))
     ∧ SQLAlchemyUnitOfWork.rollback w
       = (set_calls (calls w ++ [call_uow_rollback]) w,
          inl (RuntimeError (lit "No active transaction")))).
Proof.
  destruct w as [r tb sf us rc xr xc st cs]. simpl. split; intros ->.
  - unfold TaskService.with_unit_of_work. unfold_ports. by run.
  - split; unfold_ports; by run.
Qed.

(** ** Use cases on a missing or unwilling task *)

Ltac exec :=
  unfold_ports; unfold_more; run; table_simpl.

Ltac calls_done :=
  erewrite calls_since_app; [|simpl; by rewrite <- ?app_assoc]; reflexivity.

(** X13. A use case that names an identifier with no stored task raises
    the entity-not-found error for "Task" and that identifier.  It has opened
    the unit of work and asked the repository once; it saves nothing,
    publishes nothing, and ends with a rollback.  This holds for [start_task],
    [complete_task], [cancel_task], [assign_task] (with a usable assignee)
    and [update_task], the latter even when its title is blank. *)
Theorem unknown_task_not_found
    (w : World) (task_id : UUID) (user_id reason title description : option str)
    (assignee : str) :
  tasks w !! task_id = None →
  session_factory w = true →
  uow_session w = None →
  truthy (strip assignee) = true →
  let e := EntityNotFoundException (lit "Task") task_id in
  let w' :=
    set_calls (calls w ++ [call_uow_enter; call_get_by_id task_id;
                           call_uow_exit (Some e); call_uow_rollback]) w in
  TaskService.start_task task_id user_id w = (w', inl e)
  ∧ TaskService.complete_task task_id user_id w = (w', inl e)
  ∧ TaskService.cancel_task task_id reason user_id w = (w', inl e)
  ∧ TaskService.assign_task task_id assignee user_id w = (w', inl e)
  ∧ TaskService.update_task task_id title description w = (w', inl e).
Proof.
  destruct w as [r tb sf us rc xr xc st cs]. simpl. intros Hnone -> -> Ha.
  repeat split.
  - unfold TaskService.start_task. exec. rewrite Hnone. exec.
    by rewrite <- !app_assoc.
  - unfold TaskService.complete_task. exec. rewrite Hnone. exec.
    by rewrite <- !app_assoc.
  - unfold TaskService.cancel_task. exec. rewrite Hnone. exec.
    by rewrite <- !app_assoc.
  - unfold TaskService.assign_task. rewrite (truthy_strip _ Ha), Ha. simpl.
    exec. rewrite Hnone. exec. by rewrite <- !app_assoc.
  - unfold TaskService.update_task. exec. rewrite Hnone. exec.
    by rewrite <- !app_assoc.
Qed.

Lemma unknown_task_witness :
  (TaskService.start_task 8 None (Scenario.one_pending false)).2
  = inl (EntityNotFoundException (lit "Task") 8)
  ∧ (TaskService.update_task 8 (Some (lit "  ")) None (Scenario.one_pending false)).2
    = inl (EntityNotFoundException (lit "Task") 8).
Proof.
  destruct (unknown_task_not_found (Scenario.one_pending false) 8 None None
              (Some (lit "  ")) None (lit "bob")) as (H1 & _ & _ & _ & H5);
    try reflexivity.
  cbv zeta in *. by rewrite H1, H5.
Defined.

(** X14. When the entity refuses a transition, the use case raises the
    entity's error as it is, after a rollback; nothing is saved or published
    and the stored row is untouched.  [start_task] does so for a task that is
    not Pending, [complete_task] for a Completed or Cancelled task,
    [cancel_task] for a Completed task. *)
Theorem refused_transition_changes_nothing
    (w : World) (task_id : UUID) (row : TaskModel.t) (user_id reason : option str) :
  stored w task_id row →
  session_factory w = true →
  uow_session w = None →
  let changed e :=
    set_calls (calls w ++ [call_uow_enter; call_get_by_id task_id;
                           call_uow_exit (Some e); call_uow_rollback]) w in
  (TaskModel.status row ≠ PENDING →
   let e := ValueError (lit "Cannot start task in " ++ str_TaskStatus (TaskModel.status row)
                        ++ lit " status") in
   TaskService.start_task task_id user_id w = (changed e, inl e))
  ∧ (TaskModel.status row = COMPLETED →
     let e := ValueError (lit "Task is already completed") in
     TaskService.complete_task task_id user_id w = (changed e, inl e)
     ∧ TaskService.cancel_task task_id reason user_id w
       = (changed (ValueError (lit "Cannot cancel a completed task")),
          inl (ValueError (lit "Cannot cancel a completed task"))))
  ∧ (TaskModel.status row = CANCELLED →
     let e := ValueError (lit "Cannot complete a cancelled task") in
     TaskService.complete_task task_id user_id w = (changed e, inl e)).
Proof.
  destruct w as [r tb sf us rc xr xc st cs]. intros [Hrow Hid]. simpl in *.
  intros -> ->. destruct row as [i ti de s pr asg ca ua co]. simpl in *. subst i.
  repeat split.
  - intros Hs. unfold TaskService.start_task. exec. rewrite Hrow. simpl.
    destruct s; try done; exec; by rewrite <- !app_assoc.
  - unfold TaskService.complete_task. exec. rewrite Hrow. subst s. exec.
    by rewrite <- !app_assoc.
  - unfold TaskService.cancel_task. exec. rewrite Hrow. subst s. exec.
    by rewrite <- !app_assoc.
  - intros ->. unfold TaskService.complete_task. exec. rewrite Hrow. exec.
    by rewrite <- !app_assoc.
Qed.

Lemma refused_transition_witness :
  let w := set_tasks {[ 4 := Scenario.row 4 COMPLETED MEDIUM 4 ]} Scenario.healthy in
  (TaskService.start_task 4 None w).2
  = inl (ValueError (lit "Cannot start task in TaskStatus.COMPLETED status"))
  ∧ tasks (TaskService.start_task 4 None w).1 = tasks w
  ∧ (TaskService.cancel_task 4 None None w).2
    = inl (ValueError (lit "Cannot cancel a completed task")).
Proof.
  cbv zeta.
  destruct (refused_transition_changes_nothing
              (set_tasks {[ 4 := Scenario.row 4 COMPLETED MEDIUM 4 ]} Scenario.healthy)
              4 (Scenario.row 4 COMPLETED MEDIUM 4) None None)
    as (H1 & H2 & _); try reflexivity; [by split|].
  cbv zeta in *. rewrite (H1 ltac:(done)).
  destruct (H2 eq_refl) as [_ ->]. done.
Defined.

(** X15. On a stored task that allows the transition, with store and
    broker in service, [start_task], [complete_task] and [cancel_task] return
    the task as it is now stored, with the new status, and publish exactly
    one event, of type "task.started", "task.completed" or "task.cancelled",
    that carries the task identifier and the acting user; afterwards no unit
    of work is active. *)
Theorem transitions_persist_and_publish
    (w : World) (task_id : UUID) (row : TaskModel.t) (user_id reason : option str) :
  stored w task_id row →
  session_factory w = true →
  uow_session w = None →
  redis_client w = true →
  xadd_raises_at w (xadd_calls w) = false →
  let done_ (r : World * (exn + Task.t)) (s : TaskStatus) (ty : str)
        (event : UUID → datetime → DomainEvent.t) :=
    ∃ task event_id occurred_at,
      r.2 = inr task
      ∧ Task.status task = s
      ∧ Task.id task = task_id
      ∧ tasks r.1 !! task_id = Some (SQLAlchemyTaskRepository._to_model task)
      ∧ uow_session r.1 = None
      ∧ publications (calls_since w r.1)
        = [(ty, DomainEvent.to_dict (event event_id occurred_at))] in
  (TaskModel.status row = PENDING →
   done_ (TaskService.start_task task_id user_id w) IN_PROGRESS (lit "task.started")
     (λ i d, DomainEvent.TaskStartedEvent i d task_id user_id))
  ∧ (TaskModel.status row ∈ [PENDING; IN_PROGRESS] →
     done_ (TaskService.complete_task task_id user_id w) COMPLETED (lit "task.completed")
       (λ i d, DomainEvent.TaskCompletedEvent i d task_id user_id))
  ∧ (TaskModel.status row ≠ COMPLETED →
     done_ (TaskService.cancel_task task_id reason user_id w) CANCELLED
       (lit "task.cancelled")
       (λ i d, DomainEvent.TaskCancelledEvent i d task_id user_id reason)).
Proof.
  destruct w as [[clk nc ids ni] tb sf us rc xr xc st cs]. intros [Hrow Hid].
  simpl in *. intros -> -> -> Hx.
  destruct row as [i ti de s pr asg ca ua co]. simpl in *. subst i.
  repeat split.
  - intros ->. unfold TaskService.start_task. exec. rewrite Hrow. exec.
    rewrite Hrow. exec. rewrite Hx. exec.
    eexists _, _, _. repeat split. by calls_done.
  - intros Hs. rewrite !elem_of_cons, elem_of_nil in Hs.
    unfold TaskService.complete_task. exec. rewrite Hrow.
    destruct Hs as [->|[->|[]]]; exec; rewrite Hrow; exec; rewrite Hx; exec;
      eexists _, _, _; repeat split; by calls_done.
  - intros Hs. unfold TaskService.cancel_task. exec. rewrite Hrow.
    destruct s; try done; exec; rewrite Hrow; exec; rewrite Hx; exec;
      eexists _, _, _; repeat split; by calls_done.
Qed.

Lemma transitions_witness :
  ∃ task,
    (TaskService.start_task 7 (Some (lit "alice")) (Scenario.one_pending false)).2
    = inr task
    ∧ Task.status task = IN_PROGRESS
    ∧ Task.id task = 7.
Proof.
  destruct (transitions_persist_and_publish (Scenario.one_pending false) 7
              (Scenario.row 7 PENDING MEDIUM 0) (Some (lit "alice")) None)
    as (H1 & _); try reflexivity; [by split|].
  destruct (H1 eq_refl) as (task & event_id & occurred_at & Hr & Hs & Hi & _).
  by exists task.
Defined.

(** ** Updating and deleting *)

(** X16. [update_task] checks the new title and description only after it
    has opened the unit of work and loaded the task: for a stored task, a
    title that is given but blank (empty or whitespace only) raises the
    business-rule violation "task_title_required", and a blank description
    after an acceptable title raises "task_description_required"; the row is
    untouched, nothing is saved and the unit of work is rolled back. *)
Theorem update_task_rejects_blank_fields
    (w : World) (task_id : UUID) (row : TaskModel.t) (title description : option str) :
  stored w task_id row →
  session_factory w = true →
  uow_session w = None →
  let changed e :=
    set_calls (calls w ++ [call_uow_enter; call_get_by_id task_id;
                           call_uow_exit (Some e); call_uow_rollback]) w in
  (TaskService.given_but_blank title = true →
   let e := BusinessRuleViolationException (lit "task_title_required")
              (lit "Task title cannot be empty") in
   TaskService.update_task task_id title description w = (changed e, inl e))
  ∧ (TaskService.given_but_blank title = false →
     TaskService.given_but_blank description = true →
     let e := BusinessRuleViolationException (lit "task_description_required")
                (lit "Task description cannot be empty") in
     TaskService.update_task task_id title description w = (changed e, inl e)).
Proof.
  destruct w as [r tb sf us rc xr xc st cs]. intros [Hrow Hid]. simpl in *.
  intros -> ->. split.
  - intros Ht. unfold TaskService.update_task. exec. rewrite Hrow. simpl.
    rewrite Ht. exec. by rewrite <- !app_assoc.
  - intros Ht Hd. unfold TaskService.update_task. exec. rewrite Hrow. simpl.
    rewrite Ht, Hd. exec. by rewrite <- !app_assoc.
Qed.

Lemma update_task_blank_witness :
  (TaskService.update_task 7 (Some (lit "")) None (Scenario.one_pending false)).2
  = inl (BusinessRuleViolationException (lit "task_title_required")
           (lit "Task title cannot be empty"))
  ∧ tasks (TaskService.update_task 7 (Some (lit "")) None (Scenario.one_pending false)).1
    = tasks (Scenario.one_pending false).
Proof.
  destruct (update_task_rejects_blank_fields (Scenario.one_pending false) 7
              (Scenario.row 7 PENDING MEDIUM 0) (Some (lit "")) None)
    as (H1 & _); try reflexivity; [by split|].
  cbv zeta in H1. by rewrite (H1 eq_refl).
Defined.



(** X18. [delete_task] on an identifier with no stored task raises the
    entity-not-found error: nothing is committed through the unit of work,
    which is rolled back, and the table is as before.  On a stored task it
    returns [True], the row is gone while every other row stays, and no
    event is published. *)
Theorem delete_task_outcomes (w : World) (task_id : UUID) :
  session_factory w = true →
  uow_session w = None →
  well_keyed (tasks w) →
  (tasks w !! task_id = None →
   let e := EntityNotFoundException (lit "Task") task_id in
   TaskService.delete_task task_id w
   = (set_calls (calls w ++ [call_uow_enter; call_uow_exit (Some e); call_uow_rollback]) w,
      inl e))
  ∧ (is_Some (tasks w !! task_id) →
     ∃ w',
       TaskService.delete_task task_id w = (w', inr true)
       ∧ tasks w' = delete task_id (tasks w)
       ∧ publications (calls_since w w') = []
       ∧ stream w' = stream w
       ∧ uow_session w' = None).
Proof.
  destruct w as [r tb sf us rc xr xc st cs]. simpl. intros -> -> Hk. split.
  - intros Hnone. unfold TaskService.delete_task. exec. rewrite Hnone. exec.
    by rewrite <- !app_assoc.
  - intros [row Hrow]. unfold TaskService.delete_task. exec. rewrite Hrow. exec.
    rewrite Hrow. exec. rewrite (Hk _ _ Hrow), apply_pending_delete. exec.
    eexists. split; [reflexivity|]. simpl. split; [done|].
    split; [by calls_done|done].
Qed.

Lemma delete_task_witness :
  (TaskService.delete_task 8 Scenario.five_tasks).2
  = inl (EntityNotFoundException (lit "Task") 8)
  ∧ ∃ w',
      TaskService.delete_task 4 Scenario.five_tasks = (w', inr true)
      ∧ tasks w' !! 4 = None
      ∧ tasks w' !! 5 = tasks Scenario.five_tasks !! 5.
Proof.
  destruct (delete_task_outcomes Scenario.five_tasks 8 eq_refl eq_refl
              five_tasks_well_keyed) as [H1 _].
  destruct (delete_task_outcomes Scenario.five_tasks 4 eq_refl eq_refl
              five_tasks_well_keyed) as [_ H2].
  split.
  - cbv zeta in H1. by rewrite (H1 eq_refl).
  - destruct (H2 ltac:(by eexists)) as (w' & Hr & Ht & _).
    exists w'. split; [exact Hr|]. rewrite Ht.
    split; [apply lookup_delete_eq|by apply lookup_delete_ne].
Defined.

(** ** Statistics in general *)

Lemma priorities_partition_list (l : list Task.t) :
  length l
  = (length (filter (λ t, Task.priority t = LOW) l)
     + length (filter (λ t, Task.priority t = MEDIUM) l)
     + length (filter (λ t, Task.priority t = HIGH) l)
     + length (filter (λ t, Task.priority t = CRITICAL) l))%nat.
Proof.
  induction l as [|t l IH]; [done|].
  destruct (Task.priority t) eqn:E;
    repeat first [ rewrite filter_cons_True by (by rewrite E)
                 | rewrite filter_cons_False by (by rewrite E) ];
    simpl; lia.
Qed.

Lemma priority_count_value (l : list Task.t) (p : TaskPriority) :
  length (filter (λ t, TaskPriority_value (Task.priority t) = TaskPriority_value p) l)
  = length (filter (λ t, Task.priority t = p) l).
Proof.
  apply length_filter_ext. intros t.
  split; [apply TaskPriority_value_inj|by intros ->].
Qed.

Lemma tallied_length (l : list Task.t) :
  tallied (TaskService.tally_priorities l) = Z.of_nat (length l).
Proof.
  pose proof (priorities_partition_list l) as Hsum.
  unfold tallied. cbn [foldr]. rewrite !tally_lookup. cbv zeta.
  rewrite !priority_count_value.
  set (a := length (filter (λ t, Task.priority t = LOW) l)) in *.
  set (b := length (filter (λ t, Task.priority t = MEDIUM) l)) in *.
  set (c := length (filter (λ t, Task.priority t = HIGH) l)) in *.
  set (d := length (filter (λ t, Task.priority t = CRITICAL) l)) in *.
  rewrite Hsum. clearbody a b c d. repeat case_decide; simpl; lia.
Qed.

(** X19. For any table and any assignee filter, [get_task_statistics]
    only reads.  Its total is the number of matching tasks; [by_status] has,
    for each status, the number of matching tasks in that status and no
    entry at all when there is none; and the counts in [by_priority] add up
    to the total only up to 1000: beyond that they add up to 1000. *)
Theorem statistics_in_general (w : World) (assigned_to : option str) :
  session_factory w = true →
  let matching status :=
    length (filter (λ row, SQLAlchemyTaskRepository.matches status assigned_to None row)
              (table_rows w)) in
  ∃ w' by_status by_priority,
    TaskService.get_task_statistics assigned_to w
    = (w', inr {[ lit "total" := VInt (Z.of_nat (matching None));
                  lit "by_status" := VDict (VInt <$> by_status);
                  lit "by_priority" := VDict (VInt <$> by_priority) ]})
    ∧ tasks w' = tasks w
    ∧ (∀ s, by_status !! TaskStatus_value s
            = if decide (matching (Some s) = 0%nat) then None
              else Some (Z.of_nat (matching (Some s))))
    ∧ tallied by_priority = Z.of_nat (matching None `min` 1000).
Proof.
  intros Hf. cbv zeta.
  unfold TaskService.get_task_statistics.
  erewrite bind_returns by (by apply count_spec).
  erewrite bind_returns by (by apply count_by_status_spec).
  erewrite bind_returns by (by apply get_all_spec).
  rewrite !table_rows_set_calls.
  eexists _, _, _. split; [reflexivity|]. split; [by destruct w|]. split.
  - intros s. unfold all_TaskStatus. cbn [foldl]. cbv zeta.
    destruct s; repeat case_bool_decide; repeat case_decide; try lia;
      rewrite ?lookup_insert_eq, ?lookup_insert_ne, ?lookup_empty by done;
      rewrite ?lookup_insert_eq, ?lookup_insert_ne, ?lookup_empty by done;
      rewrite ?lookup_insert_eq, ?lookup_insert_ne, ?lookup_empty by done;
      rewrite ?lookup_insert_eq, ?lookup_insert_ne, ?lookup_empty by done;
      done.
  - rewrite tallied_length, length_fmap, length_take, drop_0, merge_sort_Permutation.
    f_equal. lia.
Qed.

Lemma statistics_in_general_witness :
  ∃ w' by_status by_priority,
    TaskService.get_task_statistics (Some (lit "nobody")) Scenario.five_tasks
    = (w', inr {[ lit "total" := VInt 0;
                  lit "by_status" := VDict (VInt <$> by_status);
                  lit "by_priority" := VDict (VInt <$> by_priority) ]})
    ∧ by_status !! lit "pending" = None
    ∧ tallied by_priority = 0%Z.
Proof.
  destruct (statistics_in_general Scenario.five_tasks (Some (lit "nobody")) eq_refl)
    as (w' & bs & bp & H1 & _ & H3 & H4).
  exists w', bs, bp. split; [exact H1|]. split.
  - exact (H3 PENDING).
  - exact H4.
Defined.

(** ** What every use case does to the stream and to the unit of work *)

Lemma appends_raise {A} (lo hi : nat) (e : exn) : Appends lo hi (raise e : M World A).
Proof. intros w. exists []. simpl. rewrite app_nil_r. split; [done|]. split; [simpl; lia|by intros []]. Qed.

Lemma appends_ret {A} (a : A) : Appends 0 0 (mret a : M World A).
Proof. intros w. exists []. simpl. rewrite app_nil_r. split; [done|]. split; lia. Qed.

Lemma appends_weaken {A} (lo lo' hi hi' : nat) (m : M World A) :
  Appends lo hi m → (lo' ≤ lo)%nat → (hi ≤ hi')%nat → Appends lo' hi' m.
Proof.
  intros Hm Hlo Hhi w. destruct (Hm w) as (l & H1 & H2 & H3).
  exists l. split; [done|]. split; [lia|]. intros Hr. specialize (H3 Hr). lia.
Qed.

Lemma appends_bind {A B} (lo1 hi1 lo2 hi2 : nat) (m : M World A) (f : A → M World B) :
  Appends lo1 hi1 m → (∀ a, Appends lo2 hi2 (f a)) →
  Appends (lo1 + lo2) (hi1 + hi2) (m ≫= f).
Proof.
  intros Hm Hf w. destruct (Hm w) as (l1 & H1 & H2 & H3).
  unfold mbind, M_bind, returned in *. destruct (m w) as [w1 [e|a]]; simpl in *.
  - exists l1. split; [done|]. split; [simpl; lia|by intros []].
  - destruct (Hf a w1) as (l2 & G1 & G2 & G3).
    exists (l1 ++ l2). rewrite G1, H1, app_assoc, length_app. split; [done|].
    split; [lia|]. intros Hr. specialize (G3 Hr). specialize (H3 I). lia.
Qed.

Lemma appends_silent_then {A B} (lo hi : nat) (m : M World A) (f : A → M World B) :
  Appends 0 0 m → (∀ a, Appends lo hi (f a)) → Appends lo hi (m ≫= f).
Proof. intros Hm Hf. by apply (appends_bind 0 0 lo hi). Qed.

Lemma appends_then_silent {A B} (lo hi : nat) (m : M World A) (f : A → M World B) :
  Appends lo hi m → (∀ a, Appends 0 0 (f a)) → Appends lo hi (m ≫= f).
Proof.
  intros Hm Hf. eapply appends_weaken; [by apply (appends_bind lo hi 0 0)|lia|lia].
Qed.

(** A computation that never touches the stream. *)
Lemma appends_untouched {A} (m : M World A) :
  (∀ w, stream (m w).1 = stream w) → Appends 0 0 m.
Proof.
  intros Hm w. exists []. rewrite app_nil_r. split; [done|]. split; simpl; lia.
Qed.

Lemma appends_with {A} (lo hi : nat) (body : M World A) :
  Appends lo hi body → Appends lo hi (TaskService.with_unit_of_work body).
Proof.
  intros Hb w. unfold TaskService.with_unit_of_work, with_.
  assert (stream (SQLAlchemyUnitOfWork.__enter__ w).1 = stream w) as He.
  { destruct w as [r tb sf us rc xr xc st cs]. unfold_ports. run.
    destruct us; [done|]. by destruct sf. }
  assert (∀ exc w1, stream (SQLAlchemyUnitOfWork.__exit__ exc w1).1 = stream w1) as Hx.
  { intros exc [r tb sf us rc xr xc st cs]. unfold_ports. run.
    destruct us as [s|]; [|done]. by destruct exc. }
  unfold returned in *.
  destruct (SQLAlchemyUnitOfWork.__enter__ w) as [w0 [e|[]]]; simpl in *.
  - exists []. rewrite app_nil_r. split; [done|]. split; [simpl; lia|by intros []].
  - destruct (Hb w0) as (l & H1 & H2 & H3). rewrite He in H1.
    destruct (body w0) as [w1 [e|a]]; simpl in *.
    + specialize (Hx (Some e) w1).
      destruct (SQLAlchemyUnitOfWork.__exit__ (Some e) w1) as [w2 [e'|[]]];
        simpl in *; (exists l; rewrite Hx; split; [done|]; split; [simpl; lia|by intros []]).
    + specialize (Hx None w1).
      destruct (SQLAlchemyUnitOfWork.__exit__ None w1) as [w2 [e'|[]]];
        simpl in *; exists l; rewrite Hx; (split; [done|]); (split; [lia|]).
      * by intros [].
      * intros _. by apply H3.
Qed.

(** The ports, one by one. *)
Lemma appends_get_by_id (i : UUID) : Appends 0 0 (SQLAlchemyTaskRepository.get_by_id i).
Proof.
  apply appends_untouched. intros [r tb sf us rc xr xc st cs].
  unfold_ports. run. by destruct sf.
Qed.

Lemma appends_save (t : Task.t) : Appends 0 0 (SQLAlchemyTaskRepository.save t).
Proof.
  apply appends_untouched. intros [r tb sf us rc xr xc st cs].
  unfold_ports. run. destruct sf; [|done]. simpl. table_simpl.
  destruct (tb !! Task.id t); simpl; table_simpl;
    repeat match goal with
      | |- context [match ?x with _ => _ end] => destruct x
      end; done.
Qed.

Lemma appends_delete (i : UUID) : Appends 0 0 (SQLAlchemyTaskRepository.delete i).
Proof.
  apply appends_untouched. intros [r tb sf us rc xr xc st cs].
  unfold_more. run. destruct sf; [|done]. simpl. table_simpl.
  by destruct (tb !! i).
Qed.

Lemma appends_exists (i : UUID) : Appends 0 0 (SQLAlchemyTaskRepository.exists_ i).
Proof.
  apply appends_untouched. intros [r tb sf us rc xr xc st cs].
  unfold_more. run. by destruct sf.
Qed.

Lemma appends_get_all s a p n k : Appends 0 0 (SQLAlchemyTaskRepository.get_all s a p n k).
Proof.
  apply appends_untouched. intros [r tb sf us rc xr xc st cs].
  unfold_more. run. by destruct sf.
Qed.

Lemma appends_count s a : Appends 0 0 (SQLAlchemyTaskRepository.count s a).
Proof.
  apply appends_untouched. intros [r tb sf us rc xr xc st cs].
  unfold_more. run. by destruct sf.
Qed.

Lemma appends_commit : Appends 0 0 SQLAlchemyUnitOfWork.commit.
Proof.
  apply appends_untouched. intros [r tb sf us rc xr xc st cs].
  unfold_ports. run. by destruct us.
Qed.

Lemma appends_in_rt {A} (m : M Runtime A) : Appends 0 0 (in_rt m).
Proof.
  apply appends_untouched. intros [r tb sf us rc xr xc st cs].
  unfold in_rt, zoom. simpl. by destruct (m r).
Qed.

Lemma appends_call_on (x : Task.t) (m : Task.Method unit) : Appends 0 0 (call_on x m).
Proof.
  apply appends_untouched. intros [r tb sf us rc xr xc st cs].
  unfold call_on. simpl. by destruct (m (x, r)) as [[? ?] [?|?]].
Qed.

Lemma appends_publish (ty : str) (d : Dict) : Appends 1 1 (RedisEventPublisher.publish ty d).
Proof.
  intros [r tb sf us rc xr xc st cs]. unfold returned. unfold_ports. run.
  destruct rc; simpl; [destruct (xr xc); simpl|].
  - exists []. rewrite app_nil_r. split; [done|]. split; [simpl; lia|by intros []].
  - eexists [_]. split; [done|]. split; simpl; lia.
  - exists []. rewrite app_nil_r. split; [done|]. split; [simpl; lia|by intros []].
Qed.

Lemma appends_get_task (i : UUID) : Appends 0 0 (TaskService.get_task i).
Proof.
  unfold TaskService.get_task. apply appends_silent_then; [apply appends_get_by_id|].
  intros [t|]; [apply appends_ret|apply appends_raise].
Qed.

(** The common tail of the five use cases that publish. *)
Lemma appends_publish_commit (saved : Task.t) (ty : str)
    (event : UUID → datetime → DomainEvent.t) :
  Appends 1 1
    (event_id ← in_rt uuid4;
     occurred_at ← in_rt utcnow;
     RedisEventPublisher.publish ty (DomainEvent.to_dict (event event_id occurred_at));;
     SQLAlchemyUnitOfWork.commit;;
     mret saved).
Proof.
  apply appends_silent_then; [apply appends_in_rt|intros i].
  apply appends_silent_then; [apply appends_in_rt|intros d].
  apply appends_then_silent; [apply appends_publish|intros _].
  apply appends_silent_then; [apply appends_commit|intros _]. apply appends_ret.
Qed.

(** The use cases that publish nothing. *)
Lemma appends_update_task (task_id : UUID) (title description : option str) :
  Appends 0 0 (TaskService.update_task task_id title description).
Proof.
  unfold TaskService.update_task. apply appends_with.
  apply appends_silent_then; [apply appends_get_task|intros t].
  repeat (match goal with |- context [if ?b then _ else _] => destruct b end;
          [apply appends_raise|]).
  apply appends_silent_then; [apply appends_call_on|intros t'].
  apply appends_silent_then; [apply appends_save|intros saved].
  apply appends_silent_then; [apply appends_commit|intros _]. apply appends_ret.
Qed.

Lemma appends_delete_task (task_id : UUID) : Appends 0 0 (TaskService.delete_task task_id).
Proof.
  unfold TaskService.delete_task. apply appends_with.
  apply appends_silent_then; [apply appends_exists|intros [|]];
    [|apply appends_raise].
  apply appends_silent_then; [apply appends_delete|intros deleted].
  apply appends_silent_then; [apply appends_commit|intros _]. apply appends_ret.
Qed.

Lemma appends_get_task_statistics (assigned_to : option str) :
  Appends 0 0 (TaskService.get_task_statistics assigned_to).
Proof.
  unfold TaskService.get_task_statistics.
  apply appends_silent_then; [apply appends_count|intros total].
  apply appends_silent_then.
  - generalize (∅ : gmap str Z). induction all_TaskStatus as [|s l IH]; intros acc.
    + apply appends_ret.
    + simpl. apply appends_silent_then; [apply appends_count|intros c]. apply IH.
  - intros by_status.
    apply appends_silent_then; [apply appends_get_all|intros ts]. apply appends_ret.
Qed.

(** X20. In any world whatsoever, each of [create_task], [start_task],
    [complete_task], [cancel_task] and [assign_task] leaves the entries
    already on the stream in place and appends at most one entry, and exactly
    one whenever it returns: a use case that returns has published its
    event.  [update_task], [delete_task], [get_task], [list_tasks] and
    [get_task_statistics] never append anything. *)
Theorem use_cases_append_one_event
    (task_id : UUID) (title description assignee : str) (priority : TaskPriority)
    (assigned_to user_id reason new_title new_description : option str)
    (status : option TaskStatus) (by_priority : option TaskPriority)
    (limit offset : nat) :
  Appends 1 1 (TaskService.create_task title description priority assigned_to user_id)
  ∧ Appends 1 1 (TaskService.start_task task_id user_id)
  ∧ Appends 1 1 (TaskService.complete_task task_id user_id)
  ∧ Appends 1 1 (TaskService.cancel_task task_id reason user_id)
  ∧ Appends 1 1 (TaskService.assign_task task_id assignee user_id)
  ∧ Appends 0 0 (TaskService.update_task task_id new_title new_description)
  ∧ Appends 0 0 (TaskService.delete_task task_id)
  ∧ Appends 0 0 (TaskService.get_task task_id)
  ∧ Appends 0 0 (TaskService.list_tasks status assigned_to by_priority limit offset)
  ∧ Appends 0 0 (TaskService.get_task_statistics assigned_to).
Proof.
  repeat split.
  - unfold TaskService.create_task.
    repeat (match goal with |- context [if ?b then _ else _] => destruct b end;
            [apply appends_raise|]).
    apply appends_with.
    apply appends_silent_then; [apply appends_in_rt|intros t].
    apply appends_silent_then; [apply appends_save|intros saved].
    apply (appends_publish_commit saved (lit "task.created")
             (λ i d, DomainEvent.TaskCreatedEvent i d _ _ _ _)).
  - unfold TaskService.start_task. apply appends_with.
    apply appends_silent_then; [apply appends_get_task|intros t].
    apply appends_silent_then; [apply appends_call_on|intros t'].
    apply appends_silent_then; [apply appends_save|intros saved].
    apply (appends_publish_commit saved (lit "task.started")
             (λ i d, DomainEvent.TaskStartedEvent i d _ _)).
  - unfold TaskService.complete_task. apply appends_with.
    apply appends_silent_then; [apply appends_get_task|intros t].
    apply appends_silent_then; [apply appends_call_on|intros t'].
    apply appends_silent_then; [apply appends_save|intros saved].
    apply (appends_publish_commit saved (lit "task.completed")
             (λ i d, DomainEvent.TaskCompletedEvent i d _ _)).
  - unfold TaskService.cancel_task. apply appends_with.
    apply appends_silent_then; [apply appends_get_task|intros t].
    apply appends_silent_then; [apply appends_call_on|intros t'].
    apply appends_silent_then; [apply appends_save|intros saved].
    apply (appends_publish_commit saved (lit "task.cancelled")
             (λ i d, DomainEvent.TaskCancelledEvent i d _ _ _)).
  - unfold TaskService.assign_task.
    match goal with |- context [if ?b then _ else _] => destruct b end;
      [apply appends_raise|].
    apply appends_with.
    apply appends_silent_then; [apply appends_get_task|intros t].
    apply appends_silent_then; [apply appends_call_on|intros t'].
    apply appends_silent_then; [apply appends_save|intros saved].
    apply (appends_publish_commit saved (lit "task.assigned")
             (λ i d, DomainEvent.TaskAssignedEvent i d _ _ _)).
  - apply appends_update_task.
  - apply appends_delete_task.
  - apply appends_get_task.
  - apply appends_get_all.
  - apply appends_get_task_statistics.
Qed.

Lemma keeps_bind {A B} (m : M World A) (f : A → M World B) :
  KeepsUnitOfWork m → (∀ a, KeepsUnitOfWork (f a)) → KeepsUnitOfWork (m ≫= f).
Proof.
  intros Hm Hf w Hw. specialize (Hm w Hw). unfold mbind, M_bind.
  destruct (m w) as [w1 [e|a]]; [done|]. by apply Hf.
Qed.

Lemma keeps_ret {A} (a : A) : KeepsUnitOfWork (mret a : M World A).
Proof. by intros w Hw. Qed.

Lemma keeps_raise {A} (e : exn) : KeepsUnitOfWork (raise e : M World A).
Proof. by intros w Hw. Qed.

Lemma keeps_untouched {A} (m : M World A) :
  (∀ w, uow_session (m w).1 = uow_session w) → KeepsUnitOfWork m.
Proof. intros Hm w Hw. by rewrite Hm. Qed.

Lemma keeps_get_by_id (i : UUID) : KeepsUnitOfWork (SQLAlchemyTaskRepository.get_by_id i).
Proof.
  apply keeps_untouched. intros [r tb sf us rc xr xc st cs].
  unfold_ports. run. by destruct sf.
Qed.

Lemma keeps_save (t : Task.t) : KeepsUnitOfWork (SQLAlchemyTaskRepository.save t).
Proof.
  apply keeps_untouched. intros [r tb sf us rc xr xc st cs].
  unfold_ports. run. destruct sf; [|done]. simpl. table_simpl.
  destruct (tb !! Task.id t); simpl; table_simpl;
    repeat match goal with
      | |- context [match ?x with _ => _ end] => destruct x
      end; done.
Qed.

Lemma keeps_delete (i : UUID) : KeepsUnitOfWork (SQLAlchemyTaskRepository.delete i).
Proof.
  apply keeps_untouched. intros [r tb sf us rc xr xc st cs].
  unfold_more. run. destruct sf; [|done]. simpl. table_simpl.
  by destruct (tb !! i).
Qed.

Lemma keeps_exists (i : UUID) : KeepsUnitOfWork (SQLAlchemyTaskRepository.exists_ i).
Proof.
  apply keeps_untouched. intros [r tb sf us rc xr xc st cs].
  unfold_more. run. by destruct sf.
Qed.

Lemma keeps_commit : KeepsUnitOfWork SQLAlchemyUnitOfWork.commit.
Proof.
  intros [r tb sf us rc xr xc st cs]. simpl. intros ->. unfold_ports. by run.
Qed.

Lemma keeps_in_rt {A} (m : M Runtime A) : KeepsUnitOfWork (in_rt m).
Proof.
  apply keeps_untouched. intros [r tb sf us rc xr xc st cs].
  unfold in_rt, zoom. simpl. by destruct (m r).
Qed.

Lemma keeps_call_on (x : Task.t) (m : Task.Method unit) : KeepsUnitOfWork (call_on x m).
Proof.
  apply keeps_untouched. intros [r tb sf us rc xr xc st cs].
  unfold call_on. simpl. by destruct (m (x, r)) as [[? ?] [?|?]].
Qed.

Lemma keeps_publish (ty : str) (d : Dict) : KeepsUnitOfWork (RedisEventPublisher.publish ty d).
Proof.
  apply keeps_untouched. intros [r tb sf us rc xr xc st cs].
  unfold_ports. run. destruct rc; [|done]. simpl. by destruct (xr xc).
Qed.

Lemma keeps_get_task (i : UUID) : KeepsUnitOfWork (TaskService.get_task i).
Proof.
  unfold TaskService.get_task. apply keeps_bind; [apply keeps_get_by_id|].
  intros [t|]; [apply keeps_ret|apply keeps_raise].
Qed.

Lemma keeps_publish_commit (saved : Task.t) (ty : str)
    (event : UUID → datetime → DomainEvent.t) :
  KeepsUnitOfWork
    (event_id ← in_rt uuid4;
     occurred_at ← in_rt utcnow;
     RedisEventPublisher.publish ty (DomainEvent.to_dict (event event_id occurred_at));;
     SQLAlchemyUnitOfWork.commit;;
     mret saved).
Proof.
  apply keeps_bind; [apply keeps_in_rt|intros i].
  apply keeps_bind; [apply keeps_in_rt|intros d].
  apply keeps_bind; [apply keeps_publish|intros _].
  apply keeps_bind; [apply keeps_commit|intros _]. apply keeps_ret.
Qed.

Lemma with_releases {A} (body : M World A) (w : World) :
  KeepsUnitOfWork body →
  uow_session w = None →
  uow_session (TaskService.with_unit_of_work body w).1 = None.
Proof.
  intros Hb Hw. destruct (session_factory w) eqn:Hf.
  - destruct (unit_of_work_released body w Hw Hf Hb)
      as (w0 & w1 & w2 & outcome & _ & _ & -> & H & _). done.
  - destruct w as [r tb sf us rc xr xc st cs]. simpl in *. subst.
    unfold TaskService.with_unit_of_work. unfold_ports. by run.
Qed.

(** X21. Whatever the state of the store and of the broker, and whether
    the call returns or raises, no use case leaves the unit of work active:
    started without an active unit of work, each of the seven transactional
    use cases ends without one, so the service can be called again. *)
Theorem use_cases_release_unit_of_work
    (w : World) (task_id : UUID) (title description assignee : str)
    (priority : TaskPriority)
    (assigned_to user_id reason new_title new_description : option str) :
  uow_session w = None →
  uow_session (TaskService.create_task title description priority assigned_to user_id w).1
  = None
  ∧ uow_session (TaskService.start_task task_id user_id w).1 = None
  ∧ uow_session (TaskService.complete_task task_id user_id w).1 = None
  ∧ uow_session (TaskService.cancel_task task_id reason user_id w).1 = None
  ∧ uow_session (TaskService.assign_task task_id assignee user_id w).1 = None
  ∧ uow_session (TaskService.update_task task_id new_title new_description w).1 = None
  ∧ uow_session (TaskService.delete_task task_id w).1 = None.
Proof.
  intros Hw. repeat split.
  - unfold TaskService.create_task.
    repeat (match goal with |- context [if ?b then _ else _] => destruct b end;
            [done|]).
    apply with_releases; [|done].
    apply keeps_bind; [apply keeps_in_rt|intros t].
    apply keeps_bind; [apply keeps_save|intros saved].
    apply (keeps_publish_commit saved (lit "task.created")
             (λ i d, DomainEvent.TaskCreatedEvent i d _ _ _ _)).
  - apply with_releases; [|done].
    apply keeps_bind; [apply keeps_get_task|intros t].
    apply keeps_bind; [apply keeps_call_on|intros t'].
    apply keeps_bind; [apply keeps_save|intros saved].
    apply (keeps_publish_commit saved (lit "task.started")
             (λ i d, DomainEvent.TaskStartedEvent i d _ _)).
  - apply with_releases; [|done].
    apply keeps_bind; [apply keeps_get_task|intros t].
    apply keeps_bind; [apply keeps_call_on|intros t'].
    apply keeps_bind; [apply keeps_save|intros saved].
    apply (keeps_publish_commit saved (lit "task.completed")
             (λ i d, DomainEvent.TaskCompletedEvent i d _ _)).
  - apply with_releases; [|done].
    apply keeps_bind; [apply keeps_get_task|intros t].
    apply keeps_bind; [apply keeps_call_on|intros t'].
    apply keeps_bind; [apply keeps_save|intros saved].
    apply (keeps_publish_commit saved (lit "task.cancelled")
             (λ i d, DomainEvent.TaskCancelledEvent i d _ _ _)).
  - unfold TaskService.assign_task.
    match goal with |- context [if ?b then _ else _] => destruct b end; [done|].
    apply with_releases; [|done].
    apply keeps_bind; [apply keeps_get_task|intros t].
    apply keeps_bind; [apply keeps_call_on|intros t'].
    apply keeps_bind; [apply keeps_save|intros saved].
    apply (keeps_publish_commit saved (lit "task.assigned")
             (λ i d, DomainEvent.TaskAssignedEvent i d _ _ _)).
  - apply with_releases; [|done].
    apply keeps_bind; [apply keeps_get_task|intros t].
    repeat (match goal with |- context [if ?b then _ else _] => destruct b end;
            [apply keeps_raise|]).
    apply keeps_bind; [apply keeps_call_on|intros t'].
    apply keeps_bind; [apply keeps_save|intros saved].
    apply keeps_bind; [apply keeps_commit|intros _]. apply keeps_ret.
  - apply with_releases; [|done].
    apply keeps_bind; [apply keeps_exists|intros [|]]; [|apply keeps_raise].
    apply keeps_bind; [apply keeps_delete|intros deleted].
    apply keeps_bind; [apply keeps_commit|intros _]. apply keeps_ret.
Qed.

Lemma use_cases_release_witness :
  uow_session (TaskService.start_task 7 None (Scenario.one_pending true)).1 = None
  ∧ uow_session (TaskService.delete_task 8 (Scenario.one_pending true)).1 = None.
Proof.
  destruct (use_cases_release_unit_of_work (Scenario.one_pending true) 7 [] [] []
              LOW None None None None None eq_refl) as (_ & H2 & _).
  destruct (use_cases_release_unit_of_work (Scenario.one_pending true) 8 [] [] []
              LOW None None None None None eq_refl) as (_ & _ & _ & _ & _ & _ & H7).
  by split.
Defined.
Section ConsumerLoop.

Import RedisStreamConsumer.

Context {R H : Type}.
Variable env : Collaborators R H.

Lemma handle_message_control (client : R) (message : str * Fields) (c : Consumer R H) :
  _running (handle_message env client message c).2 = _running c
  ∧ loop_tests (handle_message env client message c).2 = loop_tests c.
Proof.
  destruct message as [message_id data]. unfold handle_message.
  destruct (_parse_message env data) as [e|d]; [done|].
  by destruct (process_message env message_id d (subclass c)) as [h [e|[]]].
Qed.

Lemma handle_messages_control (messages : list (str * Fields)) (client : R)
    (c : Consumer R H) :
  _running (handle_messages env messages client c).2 = _running c
  ∧ loop_tests (handle_messages env messages client c).2 = loop_tests c.
Proof.
  unfold handle_messages. revert client c.
  induction messages as [|m ms IH]; intros client c; [done|]. simpl.
  destruct (handle_message_control client m c) as [H1 H2].
  destruct (handle_message env client m c) as [client' c']. simpl in *.
  destruct (IH client' c') as [G1 G2]. by rewrite G1, G2.
Qed.

Lemma iteration_control (c : Consumer R H) :
  _running (iteration env c) = _running c
  ∧ loop_tests (iteration env c) = loop_tests c
  ∧ (is_Some (_client c) → is_Some (_client (iteration env c))).
Proof.
  unfold iteration. destruct (_client c) as [client|] eqn:Hc.
  - destruct (xreadgroup env client) as [client' [e|messages]]; simpl.
    + by destruct (_running c).
    + assert (∀ client0 c0,
        _running (foldl (λ rc stream, handle_messages env stream.2 rc.1 rc.2)
                    (client0, c0) messages).2 = _running c0
        ∧ loop_tests (foldl (λ rc stream, handle_messages env stream.2 rc.1 rc.2)
                        (client0, c0) messages).2 = loop_tests c0) as Hfold.
      { induction messages as [|s ss IH]; intros client0 c0; [done|]. simpl.
        destruct (handle_messages_control s.2 client0 c0) as [H1 H2].
        destruct (handle_messages env s.2 client0 c0) as [client1 c1]. simpl in *.
        destruct (IH client1 c1) as [G1 G2]. by rewrite G1, G2. }
      destruct (Hfold client' c) as [H1 H2]. rewrite H1, H2.
      split; [done|]. split; [done|]. intros _. by eexists.
  - split; [by destruct (_running c) eqn:Hr|]. split; [by destruct (_running c)|].
    by intros [? ?].
Qed.

Lemma while_running_spec (fuel : nat) (c : Consumer R H) :
  _running c = true →
  is_Some (_client c) →
  let r := while_running env fuel c in
  (r.2 = Some tt ↔ ∃ n, (n < fuel)%nat ∧ stop_requested env (loop_tests c + n) = true)
  ∧ (r.2 = Some tt → _running r.1 = false ∧ is_Some (_client r.1)).
Proof.
  revert c. induction fuel as [|fuel IH]; intros c Hr Hc; simpl.
  - split; [|done]. split; [done|]. intros (n & Hn & _). lia.
  - rewrite Hr. simpl.
    destruct (stop_requested env (loop_tests c)) eqn:Hs; simpl.
    + split.
      * split; [|done]. intros _. exists 0%nat.
        rewrite Nat.add_0_r. split; [lia|done].
      * intros _. by rewrite Hr, Hs.
    + assert (test_running env c
              = mk_Consumer (_client c) true (subclass c) (S (loop_tests c)) (trace c))
        as ->.
      { unfold test_running. by rewrite Hr, Hs. }
      match goal with |- context [iteration env ?x] => set (c1 := x) in * end.
      destruct (iteration_control c1) as (H1 & H2 & H3).
      change (_running c1) with true in H1.
      change (loop_tests c1) with (S (loop_tests c)) in H2.
      specialize (H3 Hc).
      destruct (IH (iteration env c1) H1 H3) as [G1 G2].
      split; [|done]. rewrite G1, H2. split.
      * intros (n & Hn & Hst). exists (S n). split; [lia|].
        by replace (loop_tests c + S n)%nat with (S (loop_tests c) + n)%nat by lia.
      * intros ([|n] & Hn & Hst).
        { rewrite Nat.add_0_r in Hst. congruence. }
        exists n. split; [lia|].
        by replace (S (loop_tests c) + n)%nat with (loop_tests c + S n)%nat by lia.
Qed.

(** X22. The loop of an initialised consumer is left in one way only:
    [run] returns, within a given number of passes, exactly when a [stop()]
    of another thread is seen at one of its tests of [_running]; whatever
    the Redis client, [json.loads] and [process_message] do, it never
    raises.  When it returns the consumer is stopped and still holds its
    client.  A [stop()] made before [run()] is lost, because [run] sets
    [_running] again; after [close()], [run] raises [RuntimeError] and does
    nothing else. *)
Theorem run_ends_exactly_on_stop (fuel : nat) (c : Consumer R H) :
  is_Some (_client c) →
  let r := run env fuel c in
  (∀ e, r.2 ≠ Some (inl e))
  ∧ (r.2 = Some (inr tt)
     ↔ ∃ n, (n < fuel)%nat ∧ stop_requested env (loop_tests c + n) = true)
  ∧ (is_Some r.2 → _running r.1 = false ∧ is_Some (_client r.1))
  ∧ run env fuel (stop c) = r
  ∧ run env fuel (close c)
    = (close c, Some (inl (RuntimeError (lit "Consumer not initialized")))).
Proof.
  intros Hc. destruct Hc as [client Hc]. unfold run. simpl. rewrite Hc.
  match goal with |- context [while_running env fuel ?x] => set (c1 := x) end.
  destruct (while_running_spec fuel c1 eq_refl) as [H1 H2]; [by exists client|].
  simpl in H1. split; [|split; [|split; [|done]]].
  - intros e. simpl. by destruct (while_running env fuel c1).2.
  - simpl. rewrite <- H1. destruct (while_running env fuel c1).2 as [[]|]; simpl;
      split; congruence.
  - simpl. intros [x Hx]. apply H2.
    by destruct (while_running env fuel c1).2 as [[]|].
Qed.

End ConsumerLoop.

Lemma run_ends_witness :
  (RedisStreamConsumer.run Redelivery.env 5 Redelivery.consumer).2 = Some (inr tt)
  ∧ RedisStreamConsumer._running
      (RedisStreamConsumer.run Redelivery.env 5 Redelivery.consumer).1 = false.
Proof.
  destruct (run_ends_exactly_on_stop Redelivery.env 5 Redelivery.consumer
              (ltac:(by eexists)))
    as (_ & H1 & H2 & _).
  split.
  - apply H1. exists 3%nat. split; [lia|reflexivity].
  - apply H2. by eexists.
Defined.
Section ParseMessage.

Import RedisStreamConsumer.

Context {R H : Type}.
Variable env : Collaborators R H.

(** The loop of [_parse_message] over a list of fields with distinct
    keys. *)
Lemma parse_fields_spec (l : list (str * str)) :
  NoDup l.*1 →
  (∀ k v, (k, v) ∈ l → ∃ j, parse_field env v = inr j) →
  ∃ parsed : Dict,
    foldr (λ kv (acc : exn + Dict),
             match acc with
             | inl e => inl e
             | inr parsed =>
                 match parse_field env kv.2 with
                 | inl e => inl e
                 | inr v => inr (<[kv.1 := v]> parsed)
                 end
             end) (inr ∅) (reverse l) = inr parsed
    ∧ ∀ k, parsed !! k
           = (list_to_map l : gmap str str) !! k ≫= λ v,
               match parse_field env v with inr j => Some j | inl _ => None end.
Proof.
  induction l as [|[k v] l IH] using rev_ind; intros Hnd Hok.
  - exists ∅. split; [done|]. intros k. by rewrite !lookup_empty.
  - rewrite fmap_app in Hnd. apply NoDup_app in Hnd as (Hnd & Hfresh & _).
    destruct IH as (parsed & Hp & Hl); [done| |].
    { intros k' v' Hin. apply (Hok k' v'). set_solver. }
    destruct (Hok k v) as [j Hj]; [set_solver|].
    rewrite reverse_snoc. simpl. rewrite Hp, Hj.
    exists (<[k := j]> parsed). split; [done|]. intros k'.
    assert ((list_to_map l : gmap str str) !! k = None) as Hnone.
    { apply not_elem_of_list_to_map_1. intros Hin. apply (Hfresh k Hin). simpl. by constructor. }
    destruct (decide (k' = k)) as [->|Hne].
    + rewrite lookup_insert_eq.
      rewrite list_to_map_app. rewrite lookup_union_r by done.
      simpl. rewrite lookup_insert_eq. simpl. by rewrite Hj.
    + rewrite lookup_insert_ne by done. rewrite Hl.
      rewrite list_to_map_app.
      destruct ((list_to_map l : gmap str str) !! k') eqn:Hk'.
      * by rewrite (lookup_union_Some_l _ _ _ _ Hk').
      * rewrite lookup_union_r by done. simpl. by rewrite lookup_insert_ne.
Qed.

(** X23. As long as [json.loads] fails with [JSONDecodeError] only,
    [_parse_message] returns, and its result has exactly the keys of the
    entry: a field that does not start with a brace or a bracket comes out
    as the same text, a field that does is replaced by what [json.loads]
    makes of it, and is kept as text when [json.loads] rejects it. *)
Theorem parse_message_keeps_every_field (data : Fields) :
  (∀ v e, json_loads env v = inl e → ∃ msg, e = JSONDecodeError msg) →
  ∃ parsed,
    _parse_message env data = inr parsed
    ∧ dom parsed = dom data
    ∧ ∀ k v, data !! k = Some v →
        (startswith (lit "{") v || startswith (lit "[") v = false
         → parsed !! k = Some (VStr v))
        ∧ (∀ e, json_loads env v = inl e → parsed !! k = Some (VStr v))
        ∧ (∀ j, startswith (lit "{") v || startswith (lit "[") v = true
                → json_loads env v = inr j → parsed !! k = Some j).
Proof.
  intros Hjson.
  assert (∀ v, ∃ j, parse_field env v = inr j) as Hfield.
  { intros v. unfold parse_field.
    destruct (startswith (lit "{") v || startswith (lit "[") v); [|by eexists].
    destruct (json_loads env v) as [e|j] eqn:Hv; [|by eexists].
    destruct (Hjson v e Hv) as [msg ->]. by eexists. }
  destruct (parse_fields_spec (map_to_list data)) as (parsed & Hp & Hl).
  { apply NoDup_fst_map_to_list. }
  { intros k v _. apply Hfield. }
  exists parsed. split; [done|].
  assert (∀ k, parsed !! k
               = data !! k ≫= λ v,
                   match parse_field env v with inr j => Some j | inl _ => None end)
    as Hl'.
  { intros k. by rewrite Hl, list_to_map_to_list. }
  split.
  - apply set_eq. intros k. rewrite !elem_of_dom, Hl'.
    destruct (data !! k) as [v|]; simpl.
    + destruct (Hfield v) as [j ->]. split; by eexists.
    + split; by intros [? ?].
  - intros k v Hk. rewrite Hl', Hk. simpl. unfold parse_field.
    destruct (startswith (lit "{") v || startswith (lit "[") v).
    + split; [done|]. split.
      * intros e He. rewrite He. by destruct (Hjson v e He) as [msg ->].
      * intros j _ Hj. by rewrite Hj.
    + split; [done|]. split; [done|]. by intros j [=].
Qed.

End ParseMessage.

Lemma parse_message_witness :
  ∃ parsed,
    RedisStreamConsumer._parse_message Redelivery.env Redelivery.message.2 = inr parsed
    ∧ parsed !! lit "event_type" = Some (VStr (lit "task.created")).
Proof.
  destruct (parse_message_keeps_every_field Redelivery.env Redelivery.message.2)
    as (parsed & Hp & _ & Hk).
  { intros v e [= <-]. by eexists. }
  exists parsed. split; [done|].
  destruct (Hk (lit "event_type") (lit "task.created")) as (Htext & _).
  { apply lookup_singleton_eq. }
  by apply Htext.
Defined.
(** X24. In [ConsumerRegistry], the first registration of a name wins:
    after any sequence of [register] calls, each rejected one leaving the
    caller to go on, the registry holds what it held before, and for every
    other name the consumer of the first call that used it.  A call is
    rejected with [ValueError] exactly when its name is taken, and then
    changes nothing. *)
Theorem register_first_wins {C : Type} (l : list (str * C)) (m : gmap str C) :
  ConsumerRegistry.register_all l m = m ∪ list_to_map l
  ∧ m ⊆ ConsumerRegistry.register_all l m
  ∧ ∀ name consumer,
      (is_Some (m !! name)
       → ConsumerRegistry.register name consumer m
         = (m, inl (ValueError (lit "Consumer " ++ name ++ lit " already registered"))))
      ∧ (m !! name = None
         → ConsumerRegistry.register name consumer m = (<[name := consumer]> m, inr tt)).
Proof.
  assert (∀ name (consumer : C) m,
      (is_Some (m !! name)
       → ConsumerRegistry.register name consumer m
         = (m, inl (ValueError (lit "Consumer " ++ name ++ lit " already registered"))))
      ∧ (m !! name = None
         → ConsumerRegistry.register name consumer m = (<[name := consumer]> m, inr tt)))
    as Hone.
  { intros name consumer m0. unfold ConsumerRegistry.register, gets, modify, raise.
    unfold mbind, M_bind. simpl. split; intros Hm.
    - by rewrite bool_decide_eq_true_2.
    - rewrite bool_decide_eq_false_2; [done|]. rewrite Hm. by intros [? ?]. }
  assert (ConsumerRegistry.register_all l m = m ∪ list_to_map l) as Hall.
  { revert m. induction l as [|[name consumer] l IH]; intros m.
    - simpl. by rewrite (right_id_L ∅ (∪)).
    - unfold ConsumerRegistry.register_all in *. simpl.
      destruct (m !! name) as [c|] eqn:Hm.
      + destruct (Hone name consumer m) as [-> _]; [|by eexists]. simpl.
        rewrite IH. apply map_eq. intros k. rewrite !lookup_union.
        destruct (decide (k = name)) as [->|Hne].
        * rewrite Hm, lookup_insert_eq. by destruct (list_to_map l !! name).
        * by rewrite lookup_insert_ne.
      + destruct (Hone name consumer m) as [_ ->]; [|done]. simpl.
        rewrite IH. apply map_eq. intros k. rewrite !lookup_union.
        destruct (decide (k = name)) as [->|Hne].
        * rewrite Hm, !lookup_insert_eq. simpl.
          by destruct (list_to_map l !! name).
        * by rewrite !lookup_insert_ne. }
  split; [done|]. split; [|by intros name consumer].
  rewrite Hall. apply map_union_subseteq_l.
Qed.
(** *** Stripping twice *)

Lemma lstrip_head (s : str) (c : N) (t : str) : lstrip s = c :: t → isspace c = false.
Proof.
  induction s as [|d s IH]; simpl; [done|].
  destruct (isspace d) eqn:Hd; [done|]. by intros [= <- _].
Qed.

Lemma lstrip_fixed (c : N) (t : str) : isspace c = false → lstrip (c :: t) = c :: t.
Proof. intros Hc. simpl. by rewrite Hc. Qed.

Lemma lstrip_idem (s : str) : lstrip (lstrip s) = lstrip s.
Proof.
  destruct (lstrip s) as [|c t] eqn:Hs; [done|].
  apply lstrip_fixed. by apply (lstrip_head s c t).
Qed.

Lemma lstrip_snoc (u : str) (c : N) : isspace c = false → lstrip (u ++ [c]) = lstrip u ++ [c].
Proof.
  intros Hc. induction u as [|d u IH]; simpl; [by rewrite Hc|].
  by destruct (isspace d).
Qed.

Lemma rstrip_cons (c : N) (t : str) : isspace c = false → rstrip (c :: t) = c :: rstrip t.
Proof.
  intros Hc. unfold rstrip. rewrite reverse_cons, (lstrip_snoc _ _ Hc).
  by rewrite reverse_snoc.
Qed.

Lemma rstrip_idem (s : str) : rstrip (rstrip s) = rstrip s.
Proof. unfold rstrip. by rewrite reverse_involutive, lstrip_idem. Qed.

Lemma lstrip_strip (s : str) : lstrip (strip s) = strip s.
Proof.
  unfold strip. destruct (lstrip s) as [|c t] eqn:Hs; [done|].
  pose proof (lstrip_head s c t Hs) as Hc.
  rewrite (rstrip_cons _ _ Hc). by apply lstrip_fixed.
Qed.

Lemma strip_idem (s : str) : strip (strip s) = strip s.
Proof.
  unfold strip at 1. rewrite lstrip_strip. unfold strip. apply rstrip_idem.
Qed.

Lemma strip_no_outer_whitespace (s : str) : outer_whitespace (strip s) = false.
Proof.
  destruct (outer_whitespace (strip s)) eqn:Ho; [|done].
  destruct (strip_changes (strip s) Ho). apply strip_idem.
Qed.

Lemma blank_guard (v : str) :
  negb (truthy v) || negb (truthy (strip v)) = negb (truthy (strip v)).
Proof.
  destruct (truthy (strip v)) eqn:Hs; simpl; [|by rewrite orb_true_r].
  by rewrite (truthy_strip v Hs).
Qed.

(** X25. The three request validators reject exactly the values that are
    empty once stripped, and hand on the stripped value otherwise.  What
    they hand on is not empty, neither starts nor ends with whitespace, and
    passes the same validator unchanged; for the service it is neither
    blank nor altered by its own [strip], so the checks of [update_task]
    cannot fire on a validated request and [update_task] works with the
    validated text itself. *)
Theorem validators_trim_and_reject_blank (v : str) :
  (strip v = [] →
     validate_not_empty v
     = inl (ValueError (lit "Field cannot be empty or contain only whitespace"))
     ∧ validate_assignee v = inl (ValueError (lit "Assignee cannot be empty"))
     ∧ validate_optional (Some v)
       = inl (ValueError (lit "Field cannot be empty or contain only whitespace")))
  ∧ (strip v ≠ [] →
       validate_not_empty v = inr (strip v)
       ∧ validate_assignee v = inr (strip v)
       ∧ validate_optional (Some v) = inr (Some (strip v)))
  ∧ (∀ a, validate_not_empty v = inr a ∨ validate_assignee v = inr a →
       truthy a = true ∧ outer_whitespace a = false ∧ strip a = a
       ∧ validate_not_empty a = inr a ∧ validate_assignee a = inr a)
  ∧ (∀ x y, validate_optional x = inr y →
       validate_optional y = inr y
       ∧ TaskService.given_but_blank y = false
       ∧ TaskService.strip_if_given y = y).
Proof.
  split; [|split; [|split]].
  - intros Hv. unfold validate_not_empty, validate_assignee, validate_optional.
    by rewrite blank_guard, Hv.
  - intros Hv. unfold validate_not_empty, validate_assignee, validate_optional.
    rewrite blank_guard. by destruct (strip v).
  - intros a Ha.
    assert (a = strip v ∧ truthy (strip v) = true) as [-> Ht].
    { unfold validate_not_empty, validate_assignee in Ha. rewrite blank_guard in Ha.
      destruct (truthy (strip v)); simpl in Ha; [|by destruct Ha].
      split; [|done]. by destruct Ha as [[= <-]|[= <-]]. }
    split; [done|]. split; [apply strip_no_outer_whitespace|].
    split; [apply strip_idem|].
    unfold validate_not_empty, validate_assignee.
    by rewrite blank_guard, strip_idem, Ht.
  - intros [u|] y Hy; simpl in Hy; [|by injection Hy as <-].
    rewrite blank_guard in Hy. destruct (truthy (strip u)) eqn:Ht; simpl in Hy; [|done].
    injection Hy as <-. simpl. rewrite blank_guard, strip_idem, Ht. simpl.
    split; [done|]. split; [done|].
    destruct (strip u); [done|]. done.
Qed.
(** *** What the use cases put on the stream *)

Lemma appends_silent {A} (m : M World A) (w : World) :
  Appends 0 0 m → stream (m w).1 = stream w.
Proof.
  intros Hm. destruct (Hm w) as (l & -> & Hl & _).
  destruct l; [by rewrite app_nil_r|simpl in Hl; lia].
Qed.

Lemma publishes_silent {A} (P : StreamEntry → Prop) (m : M World A) :
  Appends 0 0 m → PublishesOnly P m.
Proof.
  intros Hm w. exists []. rewrite app_nil_r. split; [by apply appends_silent|done].
Qed.

Lemma publishes_raise {A} (P : StreamEntry → Prop) (e : exn) :
  PublishesOnly P (raise e : M World A).
Proof. intros w. exists []. simpl. by rewrite app_nil_r. Qed.

Lemma publishes_ret {A} (P : StreamEntry → Prop) (a : A) :
  PublishesOnly P (mret a : M World A).
Proof. intros w. exists []. simpl. by rewrite app_nil_r. Qed.

Lemma publishes_bind {A B} (P : StreamEntry → Prop) (m : M World A) (f : A → M World B) :
  PublishesOnly P m → (∀ a, PublishesOnly P (f a)) → PublishesOnly P (m ≫= f).
Proof.
  intros Hm Hf w. destruct (Hm w) as (l1 & H1 & H2).
  unfold mbind, M_bind. destruct (m w) as [w1 [e|a]]; simpl in *; [by exists l1|].
  destruct (Hf a w1) as (l2 & G1 & G2). exists (l1 ++ l2).
  rewrite G1, H1, app_assoc. split; [done|]. by apply Forall_app.
Qed.

Lemma publishes_with {A} (P : StreamEntry → Prop) (body : M World A) :
  PublishesOnly P body → PublishesOnly P (TaskService.with_unit_of_work body).
Proof.
  intros Hb w. unfold TaskService.with_unit_of_work, with_.
  assert (stream (SQLAlchemyUnitOfWork.__enter__ w).1 = stream w) as He.
  { destruct w as [r tb sf us rc xr xc st cs]. unfold_ports. run.
    destruct us; [done|]. by destruct sf. }
  assert (∀ exc w1, stream (SQLAlchemyUnitOfWork.__exit__ exc w1).1 = stream w1) as Hx.
  { intros exc [r tb sf us rc xr xc st cs]. unfold_ports. run.
    destruct us as [s|]; [|done]. by destruct exc. }
  destruct (SQLAlchemyUnitOfWork.__enter__ w) as [w0 [e|[]]]; simpl in *.
  - exists []. by rewrite app_nil_r.
  - destruct (Hb w0) as (l & H1 & H2). rewrite He in H1.
    destruct (body w0) as [w1 [e|a]]; simpl in *.
    + specialize (Hx (Some e) w1).
      destruct (SQLAlchemyUnitOfWork.__exit__ (Some e) w1) as [w2 [e'|[]]];
        simpl in *; exists l; by rewrite Hx.
    + specialize (Hx None w1).
      destruct (SQLAlchemyUnitOfWork.__exit__ None w1) as [w2 [e'|[]]];
        simpl in *; exists l; by rewrite Hx.
Qed.

Lemma publishes_publish (P : StreamEntry → Prop) (ty : str) (d : Dict) :
  P (mk_StreamEntry ty d) → PublishesOnly P (RedisEventPublisher.publish ty d).
Proof.
  intros HP [r tb sf us rc xr xc st cs]. unfold_ports. run.
  destruct rc; simpl; [destruct (xr xc); simpl|].
  - exists []. by rewrite app_nil_r.
  - eexists [_]. split; [done|]. by constructor.
  - exists []. by rewrite app_nil_r.
Qed.

Lemma publishes_publish_commit (P : StreamEntry → Prop) (saved : Task.t) (ty : str)
    (event : UUID → datetime → DomainEvent.t) :
  (∀ d, P (mk_StreamEntry ty d)) →
  PublishesOnly P
    (event_id ← in_rt uuid4;
     occurred_at ← in_rt utcnow;
     RedisEventPublisher.publish ty (DomainEvent.to_dict (event event_id occurred_at));;
     SQLAlchemyUnitOfWork.commit;;
     mret saved).
Proof.
  intros HP.
  apply publishes_bind; [apply publishes_silent, appends_in_rt|intros i].
  apply publishes_bind; [apply publishes_silent, appends_in_rt|intros d].
  apply publishes_bind; [by apply publishes_publish|intros _].
  apply publishes_bind; [apply publishes_silent, appends_commit|intros _].
  apply publishes_ret.
Qed.

Lemma publishes_transition (P : StreamEntry → Prop) (task_id : UUID)
    (method : Task.Method unit) (ty : str) (event : UUID → datetime → DomainEvent.t) :
  (∀ d, P (mk_StreamEntry ty d)) →
  PublishesOnly P
    (TaskService.with_unit_of_work (
       task ← TaskService.get_task task_id;
       task ← call_on task method;
       saved_task ← SQLAlchemyTaskRepository.save task;
       event_id ← in_rt uuid4;
       occurred_at ← in_rt utcnow;
       RedisEventPublisher.publish ty (DomainEvent.to_dict (event event_id occurred_at));;
       SQLAlchemyUnitOfWork.commit;;
       mret saved_task)).
Proof.
  intros HP. apply publishes_with.
  apply publishes_bind; [apply publishes_silent, appends_get_task|intros t].
  apply publishes_bind; [apply publishes_silent, appends_call_on|intros t'].
  apply publishes_bind; [apply publishes_silent, appends_save|intros saved].
  by apply (publishes_publish_commit P saved ty event).
Qed.

Lemma invoke_publishes_dotted (u : UseCase) :
  PublishesOnly (λ e, entry_event_type e ∈ dotted_event_types) (invoke u).
Proof.
  set (P := λ e, entry_event_type e ∈ dotted_event_types).
  assert (∀ ty, ty ∈ dotted_event_types → ∀ d, P (mk_StreamEntry ty d)) as HP.
  { by intros ty Hty d. }
  destruct u; simpl; (apply publishes_bind; [|intros ?; apply publishes_ret]).
  - unfold TaskService.create_task.
    repeat (match goal with |- context [if ?b then _ else _] => destruct b end;
            [apply publishes_raise|]).
    apply publishes_with.
    apply publishes_bind; [apply publishes_silent, appends_in_rt|intros t].
    apply publishes_bind; [apply publishes_silent, appends_save|intros saved].
    apply (publishes_publish_commit P saved (lit "task.created")
             (λ i d, DomainEvent.TaskCreatedEvent i d _ _ _ _)).
    apply HP. unfold dotted_event_types. repeat constructor.
  - apply publishes_silent, appends_get_task.
  - apply publishes_silent, appends_get_all.
  - apply (publishes_transition P task_id Task.start (lit "task.started")
             (λ i d, DomainEvent.TaskStartedEvent i d _ _)).
    apply HP. unfold dotted_event_types. repeat constructor.
  - apply (publishes_transition P task_id Task.complete (lit "task.completed")
             (λ i d, DomainEvent.TaskCompletedEvent i d _ _)).
    apply HP. unfold dotted_event_types. repeat constructor.
  - apply (publishes_transition P task_id Task.cancel (lit "task.cancelled")
             (λ i d, DomainEvent.TaskCancelledEvent i d _ _ _)).
    apply HP. unfold dotted_event_types. repeat constructor.
  - unfold TaskService.assign_task.
    match goal with |- context [if ?b then _ else _] => destruct b end;
      [apply publishes_raise|].
    apply (publishes_transition P task_id (Task.assign_to (strip assignee))
             (lit "task.assigned") (λ i d, DomainEvent.TaskAssignedEvent i d _ _ _)).
    apply HP. unfold dotted_event_types. repeat constructor.
  - apply publishes_silent, appends_update_task.
  - apply publishes_silent, appends_delete_task.
  - apply publishes_silent, appends_get_task_statistics.
Qed.

Lemma published_dotted (u : UseCase) (w : World) (entry : StreamEntry) :
  entry ∈ published (invoke u) w → entry_event_type entry ∈ dotted_event_types.
Proof.
  unfold published. destruct (invoke_publishes_dotted u w) as (l & -> & Hl).
  rewrite drop_app_length. intros Hin.
  by apply (proj1 (Forall_forall _ _) Hl).
Qed.
(** *** What the notification consumer does with them *)

Section Notifications.

Import RedisStreamConsumer.

Context {R H : Type}.
Variable json_loads : str → exn + Value.
Variable _handle_task_created : Value → M H unit.
Variable _handle_task_completed : Value → M H unit.
Variable _handle_task_assigned : Value → M H unit.
Variable _handle_task_cancelled : Value → M H unit.
Variable xreadgroup : M R (list (str * list (str * Fields))).
Variable xack : str → M R nat.
Variable stop_requested : nat → bool.

Let env : Collaborators R H :=
  TaskNotificationConsumer.consumer_class json_loads
    _handle_task_created _handle_task_completed
    _handle_task_assigned _handle_task_cancelled
    xreadgroup xack stop_requested.

Lemma parse_fields_inv (l : list (str * str)) (parsed : Dict) :
  foldr (λ kv (acc : exn + Dict),
           match acc with
           | inl e => inl e
           | inr parsed =>
               match parse_field env kv.2 with
               | inl e => inl e
               | inr v => inr (<[kv.1 := v]> parsed)
               end
           end) (inr ∅) (reverse l) = inr parsed →
  ∀ k v, (k, v) ∈ l → ∃ j, parse_field env v = inr j.
Proof.
  revert parsed. induction l as [|[k0 v0] l IH] using rev_ind; intros parsed Hp k v Hin.
  - by apply elem_of_nil in Hin.
  - rewrite reverse_snoc in Hp. simpl in Hp.
    match type of Hp with
    | match ?x with _ => _ end = _ => destruct x as [e|p] eqn:Hl; [done|]
    end.
    destruct (parse_field env v0) as [e|j0] eqn:Hv0; [done|].
    apply elem_of_app in Hin as [Hin|Hin]; [by apply (IH p eq_refl k v)|].
    apply list_elem_of_singleton in Hin as [= -> ->]. by eexists.
Qed.

Lemma parse_message_inv (data : Fields) (parsed : Dict) :
  _parse_message env data = inr parsed →
  ∀ k v, data !! k = Some v → ∃ j, parse_field env v = inr j ∧ parsed !! k = Some j.
Proof.
  intros Hp k v Hk.
  pose proof (parse_fields_inv (map_to_list data) parsed Hp) as Hok.
  destruct (parse_fields_spec env (map_to_list data)) as (parsed' & Hp' & Hl).
  { apply NoDup_fst_map_to_list. }
  { done. }
  unfold _parse_message in Hp. rewrite Hp' in Hp. injection Hp as ->.
  destruct (Hok k v) as [j Hj]; [by apply elem_of_map_to_list|].
  exists j. split; [done|]. rewrite Hl, list_to_map_to_list, Hk. simpl. by rewrite Hj.
Qed.

Lemma dotted_is_no_class_name (name : str) (event_data : Value) (h : H) :
  name ∈ dotted_event_types →
  parse_field env name = inr (VStr name)
  ∧ (if decide (name = lit "TaskCreatedEvent") then _handle_task_created event_data
     else if decide (name = lit "TaskCompletedEvent") then _handle_task_completed event_data
     else if decide (name = lit "TaskAssignedEvent") then _handle_task_assigned event_data
     else if decide (name = lit "TaskCancelledEvent") then _handle_task_cancelled event_data
     else mret tt) h = (h, inr tt).
Proof.
  unfold dotted_event_types. intros Hin.
  repeat (apply elem_of_cons in Hin as [->|Hin]); [..|by apply elem_of_nil in Hin];
    (split; [reflexivity|]);
    repeat (case_decide as Heq; [by vm_compute in Heq|]); done.
Qed.

(** X26. No event of [TaskService] ever reaches a notification handler.
    The service publishes under the dotted names [task.created],
    [task.started], ..., while [TaskNotificationConsumer.process_message]
    looks for the class names [TaskCreatedEvent], ... in the same field.  So
    for every entry that any use case appends to the stream, in any world,
    handling the entry leaves the state behind the consumer as it was,
    whatever the four handlers and [json.loads] are; and when [json.loads]
    reads the [data] field back as an object, the message is processed
    without error and acknowledged, so it is not delivered again. *)
Theorem service_events_reach_no_handler
    (json_dumps : Dict → str) (u : UseCase) (w : World) (entry : StreamEntry)
    (message_id : str) (client : R) (c : Consumer R H) :
  entry ∈ published (invoke u) w →
  let r := handle_message env client (message_id, message_fields json_dumps entry) c in
  subclass r.2 = subclass c
  ∧ ∀ d, json_loads (json_dumps (entry_data entry)) = inr (VDict d) →
      trace r.2 = trace c ++ [ev_processed message_id false; ev_xack message_id].
Proof.
  intros Hin. apply published_dotted in Hin.
  set (fields := message_fields json_dumps entry).
  assert (fields !! lit "event_type" = Some (entry_event_type entry)) as Hty.
  { unfold fields, message_fields. apply lookup_insert_eq. }
  assert (fields !! lit "data" = Some (json_dumps (entry_data entry))) as Hdata.
  { unfold fields, message_fields. rewrite lookup_insert_ne by (by vm_compute).
    apply lookup_singleton_eq. }
  assert (∀ parsed h,
            _parse_message env fields = inr parsed →
            (TaskNotificationConsumer.process_message json_loads
               _handle_task_created _handle_task_completed
               _handle_task_assigned _handle_task_cancelled
               message_id parsed h).1 = h
            ∧ ∀ d, json_loads (json_dumps (entry_data entry)) = inr (VDict d) →
                TaskNotificationConsumer.process_message json_loads
                  _handle_task_created _handle_task_completed
                  _handle_task_assigned _handle_task_cancelled
                  message_id parsed h = (h, inr tt)) as Hprocess.
  { intros parsed h Hp.
    destruct (parse_message_inv fields parsed Hp _ _ Hty) as (jt & Hjt & Hpt).
    destruct (parse_message_inv fields parsed Hp _ _ Hdata) as (jd & Hjd & Hpd).
    unfold TaskNotificationConsumer.process_message. rewrite Hpt, Hpd. simpl.
    assert (jt = VStr (entry_event_type entry)) as ->.
    { destruct (dotted_is_no_class_name _ VNone h Hin) as [Hf _]. congruence. }
    pose proof (λ v, proj2 (dotted_is_no_class_name _ v h Hin)) as Hnone.
    unfold mbind, M_bind, raise, mret, M_ret.
    split.
    - destruct jd as [|text| | |]; simpl; try apply (f_equal fst (Hnone _)).
      destruct (json_loads text) as [e|v]; simpl; [done|].
      apply (f_equal fst (Hnone _)).
    - intros d Hd. unfold parse_field in Hjd. simpl in Hjd.
      destruct (startswith (lit "{") (json_dumps (entry_data entry))
                || startswith (lit "[") (json_dumps (entry_data entry))).
      + rewrite Hd in Hjd. injection Hjd as <-. simpl. apply Hnone.
      + injection Hjd as <-. simpl. rewrite Hd. simpl. apply Hnone. }
  simpl. fold fields.
  destruct (_parse_message env fields) as [e|parsed] eqn:Hp.
  - split; [done|]. intros d Hd. exfalso.
    destruct (parse_fields_spec env (map_to_list fields)) as (parsed & Hp' & _).
    { apply NoDup_fst_map_to_list. }
    { intros k v Hkv. apply elem_of_map_to_list in Hkv.
      unfold fields, message_fields in Hkv.
      apply lookup_insert_Some in Hkv as [[<- <-]|[_ Hkv]].
      - destruct (dotted_is_no_class_name _ VNone (subclass c) Hin) as [Hf _].
        by eexists.
      - apply lookup_singleton_Some in Hkv as [<- <-].
        unfold parse_field. simpl.
        destruct (startswith (lit "{") (json_dumps (entry_data entry))
                  || startswith (lit "[") (json_dumps (entry_data entry)));
          [rewrite Hd|]; by eexists. }
    unfold _parse_message in Hp. congruence.
  - destruct (Hprocess parsed (subclass c) eq_refl) as [Hstate Hret].
    change (process_message env message_id parsed (subclass c))
      with (TaskNotificationConsumer.process_message json_loads
              _handle_task_created _handle_task_completed
              _handle_task_assigned _handle_task_cancelled
              message_id parsed (subclass c)).
    split.
    + destruct (TaskNotificationConsumer.process_message json_loads
                  _handle_task_created _handle_task_completed
                  _handle_task_assigned _handle_task_cancelled
                  message_id parsed (subclass c)) as [h [e|[]]]; simpl in *; done.
    + intros d Hd. rewrite (Hret d Hd). simpl. by rewrite <- app_assoc.
Qed.

End Notifications.
Lemma service_events_witness :
  let entry :=
    mk_StreamEntry (lit "task.started")
      (DomainEvent.to_dict
         (DomainEvent.TaskStartedEvent (Scenario.ids 0) (Scenario.clock 1) 7 None)) in
  let r :=
    RedisStreamConsumer.handle_message Notifier.env tt
      (lit "1700000000000-0", message_fields (λ _, lit "{}") entry) Notifier.consumer in
  entry ∈ published (invoke (uc_start_task 7 None)) (Scenario.one_pending false)
  ∧ RedisStreamConsumer.subclass r.2 = []
  ∧ RedisStreamConsumer.trace r.2
    = [RedisStreamConsumer.ev_processed (lit "1700000000000-0") false;
       RedisStreamConsumer.ev_xack (lit "1700000000000-0")].
Proof.
  intros entry r.
  assert (entry ∈ published (invoke (uc_start_task 7 None)) (Scenario.one_pending false))
    as Hin.
  { vm_compute. by constructor. }
  split; [done|].
  destruct (service_events_reach_no_handler
              (λ _, inr (VDict ∅))
              (λ _ ran, (ran ++ [lit "created"], inr tt))
              (λ _ ran, (ran ++ [lit "completed"], inr tt))
              (λ _ ran, (ran ++ [lit "assigned"], inr tt))
              (λ _ ran, (ran ++ [lit "cancelled"], inr tt))
              (λ r, (r, inr []))
              (λ _ r, (r, inr 1%nat))
              (λ _, true)
              (λ _, lit "{}") (uc_start_task 7 None) (Scenario.one_pending false) entry
              (lit "1700000000000-0") tt Notifier.consumer Hin) as [H1 H2].
  split; [exact H1|]. by apply (H2 ∅).
Defined.
(** *** What the use cases can raise *)





























(** X28. [delete_task] never returns [False]: it returns [True] or it
    raises.  The repository's [delete] is only reached after [exists] has
    found the row, and then it finds the row as well. *)
Theorem delete_task_never_false (w : World) (task_id : UUID) :
  (TaskService.delete_task task_id w).2 ≠ inr false.
Proof.
  destruct w as [r tb sf us rc xr xc st cs].
  unfold TaskService.delete_task. unfold_more. unfold_ports. run.
  destruct us as [s|]; [done|]. destruct sf; [|done]. simpl. table_simpl.
  destruct (tb !! task_id) as [row|] eqn:Hrow; simpl; repeat (progress table_simpl);
    rewrite ?Hrow; simpl; done.
Qed.
